(** * is-academic-email: hostname normalisation, suffix walk and dataset build

    A shallow embedding of [src/index.ts] (the runtime classification engine)
    and of the dataset build script ([filePathToDomain], [parseSchoolFile],
    [readSwot]), with the properties of the specification stated and proved
    over it.

    Strings.  A JavaScript string is a sequence of UTF-16 code units.  The
    embedding uses the standard [string] type, whose characters are read as
    the code units U+0000 .. U+00FF.  On that range [String.prototype.trim],
    the regular expression class [\s] and [String.prototype.toLowerCase] are
    character-wise and are exactly the functions defined below.

    Containers.  [Map<string, string[]>] is [gmap string (list string)] and
    [Set<string>] is [gset string].  The value [JSON.parse] returns is a
    [json] tree, read by the loader as the code reads it. *)

From Stdlib Require Import Ascii ZArith.
From stdpp Require Import gmap strings list fin_maps pretty.

Local Open Scope Z_scope.

(** [simpl] unfolds string concatenation on a constructor. *)
#[local] Arguments String.append !s1 s2 : simpl nomatch.
#[local] Arguments Ascii.eqb : simpl never.

(** ** Code units *)

Module Char.

Definition code (c : ascii) : Z := Z.of_N (N_of_ascii c).

Definition of_code (n : Z) : ascii := ascii_of_N (Z.to_N n).

Definition between (lo hi : Z) (c : ascii) : bool :=
  (lo <=? code c) && (code c <=? hi).

(** ECMAScript WhiteSpace and LineTerminator below U+0100: TAB, LF, VT, FF,
    CR, SP and NBSP.  This is what [trim] strips and what [\s] matches. *)
Definition isWhiteSpace (c : ascii) : bool :=
  between 9 13 c || (code c =? 32) || (code c =? 160).

(** [toLowerCase] on one code unit: A-Z and the Latin-1 capitals
    U+00C0 .. U+00DE (U+00D7, the multiplication sign, apart). *)
Definition toLowerCase (c : ascii) : ascii :=
  if between 65 90 c || between 192 214 c || between 216 222 c
  then of_code (code c + 32) else c.

(** Canonicalize of the [i] flag (no [u] flag): the upper-case mapping when
    it is a single code unit, the character itself otherwise.  The
    upper-case forms of U+00B5, U+00DF and U+00FF are not in the range and
    are matched by no character of it but themselves. *)
Definition canonicalize (c : ascii) : ascii :=
  if between 97 122 c || between 224 246 c || between 248 254 c
  then of_code (code c - 32) else c.

End Char.

(** ** String primitives of the JavaScript runtime *)

Fixpoint toLowerCase (s : string) : string :=
  match s with
  | EmptyString => EmptyString
  | String c s' => String (Char.toLowerCase c) (toLowerCase s')
  end.

Fixpoint trimStart (s : string) : string :=
  match s with
  | EmptyString => EmptyString
  | String c s' => if Char.isWhiteSpace c then trimStart s' else s
  end.

Fixpoint trimEnd (s : string) : string :=
  match s with
  | EmptyString => EmptyString
  | String c s' =>
      match trimEnd s' with
      | EmptyString => if Char.isWhiteSpace c then EmptyString else String c EmptyString
      | t => String c t
      end
  end.

Definition trim (s : string) : string := trimEnd (trimStart s).

(** [s.indexOf(c)]: the index of the first occurrence, [-1] when there is none. *)
Fixpoint indexOf (c : ascii) (s : string) : Z :=
  match s with
  | EmptyString => -1
  | String d s' =>
      if Ascii.eqb d c then 0
      else let i := indexOf c s' in if i <? 0 then -1 else i + 1
  end.

Fixpoint drop_chars (n : nat) (s : string) : string :=
  match n, s with
  | O, _ => s
  | S _, EmptyString => EmptyString
  | S n', String _ s' => drop_chars n' s'
  end.

(** [s.substring(start)]: a negative start is taken as 0, one past the end
    gives the empty string. *)
Definition substring (start : Z) (s : string) : string :=
  drop_chars (Z.to_nat (Z.max 0 start)) s.

(** [s.split(sep)] for a one-character separator; the result is never empty. *)
Fixpoint split (sep : ascii) (s : string) : list string :=
  match s with
  | EmptyString => [EmptyString]
  | String c s' =>
      if Ascii.eqb c sep then EmptyString :: split sep s'
      else match split sep s' with
           | f :: fs => String c f :: fs
           | [] => [String c EmptyString]
           end
  end.

(** [a[0]] on an array of strings; [split] never returns an empty array, so
    the [undefined] case does not arise where it is used. *)
Definition first (a : list string) : string := hd EmptyString a.

(** [parts.join('.')] *)
Fixpoint join (sep : string) (parts : list string) : string :=
  match parts with
  | [] => EmptyString
  | [p] => p
  | p :: ps => p +:+ sep +:+ join sep ps
  end.

Fixpoint startsWith (pre s : string) : bool :=
  match pre, s with
  | EmptyString, _ => true
  | String _ _, EmptyString => false
  | String a pre', String b s' => Ascii.eqb a b && startsWith pre' s'
  end.

Fixpoint endsWith (suf s : string) : bool :=
  match s with
  | EmptyString => if suf is EmptyString then true else false
  | String _ s' => String.eqb s suf || endsWith suf s'
  end.

(** JavaScript truthiness of a string: non-empty. *)
Definition truthy (s : string) : bool :=
  match s with EmptyString => false | String _ _ => true end.

(** ** The regular expressions of the source

    Every regular expression of the two source files is a sequence of
    character classes, each taken once or under [?], [*] or [+], between an
    optional [^] and an optional [$].  The matcher is the backtracking one of
    the language: quantifiers are greedy and give characters back one at a
    time when the rest of the pattern fails. *)

Module RegExp.

Inductive quant := Once | Opt | Star | Plus.

Record atom := Atom { cls : ascii → bool; rep : quant }.

Record t := RegExp { bol : bool; body : list atom; eol : bool }.

(** [many p k s]: [p*] followed by the continuation [k], longest first. *)
Fixpoint many (p : ascii → bool) (k : string → option string) (s : string)
  : option string :=
  match s with
  | String c s' =>
      if p c then
        match many p k s' with
        | Some r => Some r
        | None => k s
        end
      else k s
  | EmptyString => k s
  end.

(** [exec re k s]: match the atoms of [re] at the start of [s], then [k];
    the result is the text left after the match. *)
Fixpoint exec (re : list atom) (k : string → option string) (s : string)
  : option string :=
  match re with
  | [] => k s
  | a :: re' =>
      match rep a, s with
      | Once, String c s' => if cls a c then exec re' k s' else None
      | Once, EmptyString => None
      | Opt, String c s' =>
          if cls a c then
            match exec re' k s' with
            | Some r => Some r
            | None => exec re' k s
            end
          else exec re' k s
      | Opt, EmptyString => exec re' k s
      | Star, _ => many (cls a) (exec re' k) s
      | Plus, String c s' =>
          if cls a c then many (cls a) (exec re' k) s' else None
      | Plus, EmptyString => None
      end
  end.

Definition at_end (anchored : bool) (s : string) : option string :=
  if anchored then (if truthy s then None else Some EmptyString) else Some s.

Definition match_at (re : t) (s : string) : option string :=
  exec (body re) (at_end (eol re)) s.

(** Leftmost match: the text before it and the text after it. *)
Fixpoint search (re : t) (s : string) : option (string * string) :=
  match match_at re s with
  | Some r => Some (EmptyString, r)
  | None =>
      if bol re then None
      else match s with
           | EmptyString => None
           | String c s' =>
               match search re s' with
               | Some (b, r) => Some (String c b, r)
               | None => None
               end
           end
  end.

(** [re.test(s)] *)
Definition test (re : t) (s : string) : bool :=
  if search re s is Some _ then true else false.

(** [s.replace(re, '')] for a pattern without the [g] flag. *)
Definition remove (re : t) (s : string) : string :=
  match search re s with
  | Some (b, r) => b +:+ r
  | None => s
  end.

(** [s.split(re)] for a pattern that matches no empty string.  [skip]
    counts the characters of a separator already matched. *)
Fixpoint split_from (re : t) (skip : nat) (s : string) : list string :=
  match s with
  | EmptyString => [EmptyString]
  | String c s' =>
      let keep :=
        match split_from re 0 s' with
        | f :: fs => String c f :: fs
        | [] => [String c EmptyString]
        end in
      match skip with
      | S n => split_from re n s'
      | O =>
          match match_at re s with
          | Some r =>
              match (String.length s - String.length r)%nat with
              | O => keep
              | S n => EmptyString :: split_from re n s'
              end
          | None => keep
          end
      end
  end.

Definition split (re : t) (s : string) : list string := split_from re 0 s.

(** Character classes. *)
Definition chr (c : ascii) : ascii → bool := Ascii.eqb c.
Definition chr_i (c : ascii) : ascii → bool :=
  fun x => Ascii.eqb (Char.canonicalize x) (Char.canonicalize c).
Definition neg (p : ascii → bool) : ascii → bool := fun x => negb (p x).
Definition alt (p q : ascii → bool) : ascii → bool := fun x => p x || q x.

End RegExp.

(** ** The runtime engine ([src/index.ts]) *)

Record SwotDataPacked := {
  packed_institutions : gmap string (list string);
  packed_stoplist : list string;
  packed_tlds : list string;
}.

Record SwotData := {
  institutions : gmap string (list string);
  stoplist : gset string;
  tlds : gset string;
}.

(** *** [loadData]

    Reading the file, decompressing it and parsing it can each throw; the
    three calls sit in one [try] block whose [catch] substitutes the empty
    packed dataset.  Decompression and JSON parsing are the runtime's, and
    are parameters here.

    [JSON.parse] returns whatever value the text denotes, and the cast to
    [SwotDataPacked] checks nothing.  The statements after the [try] block
    read that value with [Object.entries] and [Array.prototype.map]; on a
    value of another shape they throw a [TypeError], which no handler
    catches. *)

(** A JSON value.  The fields of an object are in the order of the text; a
    later field replaces an earlier one of the same name. *)
#[warnings="-register-all"]
Inductive json :=
  | JNull
  | JBool (b : bool)
  | JNumber (literal : string)
  | JString (s : string)
  | JArray (items : list json)
  | JObject (fields : list (string * json)).

(** What evaluating [loadData] comes to.  [Untyped] is a dataset returned
    with an institution value that is no array of strings: the type
    [Map<string, string[]>] does not describe it, and the queries are not
    modelled over it. *)
Inductive loaded :=
  | Loaded (DATA : SwotData)
  | Untyped
  | TypeError.

Fixpoint field (key : string) (fields : list (string * json)) : option json :=
  match fields with
  | [] => None
  | (k, v) :: rest =>
      match field key rest with
      | Some w => Some w
      | None => if String.eqb k key then Some v else None
      end
  end.

(** [value.key] for a key no prototype defines.  The outer [None] is the
    [TypeError] of reading a property of [null], the inner one is
    [undefined]. *)
Definition property (key : string) (value : json) : option (option json) :=
  match value with
  | JNull => None
  | JObject fields => Some (field key fields)
  | JBool _ | JNumber _ | JString _ | JArray _ => Some None
  end.

(** The own enumerable properties of an array or of a string: its indices
    in decimal. *)
Definition indexed {A} (items : list A) : list (string * A) :=
  imap (λ i item, (pretty i, item)) items.

Definition code_units (s : string) : list json :=
  (λ c, JString (String c "")) <$> String.list_ascii_of_string s.

(** [new Map(Object.entries(value))]; [None] is the [TypeError] of
    [Object.entries(undefined)] and [Object.entries(null)]. *)
Definition entries_map (value : option json) : option (gmap string json) :=
  match value with
  | None | Some JNull => None
  | Some (JBool _) | Some (JNumber _) => Some ∅
  | Some (JString s) => Some (list_to_map (indexed (code_units s)))
  | Some (JArray items) => Some (list_to_map (indexed items))
  | Some (JObject fields) => Some (list_to_map (reverse fields))
  end.

Definition as_string (value : json) : option string :=
  match value with
  | JString s => Some s
  | _ => None
  end.

(** [value.map((s) => s.toLowerCase())]; [None] is a [TypeError]: only an
    array has a [map] method, and only a string a [toLowerCase] method. *)
Definition lowered (value : option json) : option (list string) :=
  match value with
  | Some (JArray items) => fmap toLowerCase <$> mapM as_string items
  | _ => None
  end.

(** An institution value of the declared type [string[]]. *)
Definition as_names (value : json) : option (list string) :=
  match value with
  | JArray items => mapM as_string items
  | _ => None
  end.

Definition typed (entries : gmap string json) : bool :=
  forallb (λ entry, from_option (λ _, true) false (as_names entry.2))
    (map_to_list entries).

Section Loader.

Variable brotliDecompressSync : string → option string.
Variable JSON_parse : string → option json.

(** [{ institutions: {}, stoplist: [], tlds: [] }] *)
Definition empty_packed : json :=
  JObject [("institutions", JObject []); ("stoplist", JArray []);
           ("tlds", JArray [])].

(** The body of the [try] block; [file] is the outcome of [readFileSync]. *)
Definition read_packed (file : option string) : option json :=
  compressed ← file;
  decompressed ← brotliDecompressSync compressed;
  JSON_parse decompressed.

Definition loadData (file : option string) : loaded :=
  let packed := default empty_packed (read_packed file) in
  match
    entries ← property "institutions" packed ≫= entries_map;
    stop ← property "stoplist" packed ≫= lowered;
    top ← property "tlds" packed ≫= lowered;
    Some (entries, stop, top)
  with
  | None => TypeError
  | Some (entries, stop, top) =>
      if typed entries
      then Loaded {| institutions := omap as_names entries;
                     stoplist := list_to_set stop;
                     tlds := list_to_set top |}
      else Untyped
  end.

End Loader.

(** *** [domainParts] *)

(** [[^\s@]] *)
Definition not_space_at : ascii → bool :=
  RegExp.neg (RegExp.alt Char.isWhiteSpace (RegExp.chr "@")).

(** [/^[a-z]+:\/\//] *)
Definition re_scheme : RegExp.t :=
  RegExp.RegExp true
    [RegExp.Atom (Char.between 97 122) RegExp.Plus;
     RegExp.Atom (RegExp.chr ":") RegExp.Once;
     RegExp.Atom (RegExp.chr "/") RegExp.Once;
     RegExp.Atom (RegExp.chr "/") RegExp.Once]
    false.

(** [/^[^/]*@/] *)
Definition re_userinfo : RegExp.t :=
  RegExp.RegExp true
    [RegExp.Atom (RegExp.neg (RegExp.chr "/")) RegExp.Star;
     RegExp.Atom (RegExp.chr "@") RegExp.Once]
    false.

(** [/^[^\s@]+@[^\s@]+\.[^\s@]+$/] *)
Definition re_email : RegExp.t :=
  RegExp.RegExp true
    [RegExp.Atom not_space_at RegExp.Plus;
     RegExp.Atom (RegExp.chr "@") RegExp.Once;
     RegExp.Atom not_space_at RegExp.Plus;
     RegExp.Atom (RegExp.chr ".") RegExp.Once;
     RegExp.Atom not_space_at RegExp.Plus]
    true.

Definition domainParts (emailOrDomain : string) : list string :=
  let raw := toLowerCase (trim emailOrDomain) in
  let host :=
    first (split ":"
      (first (split "/"
        (RegExp.remove re_userinfo
          (RegExp.remove re_scheme
            (substring (indexOf "@" raw + 1) raw)))))) in
  if truthy host then rev (split "." host) else [].

(** *** The suffix walk *)

(** [subj ? `${part}.${subj}` : part] *)
Definition extend (subj part : string) : string :=
  if truthy subj then part +:+ "." +:+ subj else part.

(** The [for] loop of [checkSet], from the accumulator [subj]. *)
Fixpoint checkSet_from (set : gset string) (subj : string) (parts : list string)
  : bool :=
  match parts with
  | [] => false
  | part :: rest =>
      let subj' := extend subj part in
      if decide (subj' ∈ set) then true else checkSet_from set subj' rest
  end.

Definition checkSet (set : gset string) (parts : list string) : bool :=
  checkSet_from set "" parts.

(** The [for] loop of [findSchoolNames]; [names && names.length] holds for a
    key that is present with a non-empty array. *)
Fixpoint findSchoolNames_from (m : gmap string (list string)) (subj : string)
    (parts : list string) : list string :=
  match parts with
  | [] => []
  | part :: rest =>
      let subj' := extend subj part in
      match m !! subj' with
      | Some (n :: names) => n :: names
      | _ => findSchoolNames_from m subj' rest
      end
  end.

Section Engine.

Variable DATA : SwotData.

Definition isUnderTLD (emailOrDomain : string) : bool :=
  checkSet (tlds DATA) (domainParts emailOrDomain).

Definition isStoplisted (emailOrDomain : string) : bool :=
  checkSet (stoplist DATA) (domainParts emailOrDomain).

Definition findSchoolNames (emailOrDomain : string) : list string :=
  findSchoolNames_from (institutions DATA) "" (domainParts emailOrDomain).

Definition isAcademic (email : string) : bool :=
  let valid := RegExp.test re_email email in
  if negb valid then false
  else negb (isStoplisted email)
       && (isUnderTLD email || (0 <? Z.of_nat (length (findSchoolNames email)))).

End Engine.

(** ** The dataset build script

    The file system below the domains directory is a tree of directory
    entries.  A path is the list of its segments; [path.join(dir, name)] adds
    a segment, [path.relative(root, file)] for a file below [root] drops the
    segments of [root], and splitting the relative path at [path.sep] gives
    its segments back. *)

#[warnings="-register-all"]
Inductive dirent :=
  | File (name : string) (content : option string)
      (** a regular file; [None] when [readFile] rejects *)
  | Directory (name : string) (entries : option (list dirent))
      (** a directory; [None] when [readdir] rejects *)
  | Other (name : string) (content : option string).
      (** neither [isDirectory()] nor [isFile()], a symbolic link for one;
          [content] is what [readFile] gives for it *)

Definition path := list string.

Inductive result (A : Type) :=
  | Ok (a : A)
  | Throw (message : string).
Arguments Ok {A} a.
Arguments Throw {A} message.

(** [walk]: the files below [dir] in the order of the directory listings,
    each with the outcome of reading it; [None] when a [readdir] rejects.
    [walk_entry] is the body of the loop over the entries of [dir]. *)
Fixpoint walk_entry (dir : path) (e : dirent) {struct e}
  : option (list (path * option string)) :=
  match e with
  | Directory name (Some sub) =>
      (fix each (entries : list dirent) :=
         match entries with
         | [] => Some []
         | e' :: rest =>
             match walk_entry (dir ++ [name]) e', each rest with
             | Some here, Some there => Some (here ++ there)
             | _, _ => None
             end
         end) sub
  | Directory name None => None
  | File name content => Some [(dir ++ [name], content)]
  | Other _ _ => Some []
  end.

Fixpoint walk_entries (dir : path) (entries : list dirent)
  : option (list (path * option string)) :=
  match entries with
  | [] => Some []
  | e :: rest =>
      match walk_entry dir e, walk_entries dir rest with
      | Some here, Some there => Some (here ++ there)
      | _, _ => None
      end
  end.

Definition walk (dir : path) (listing : option (list dirent))
  : option (list (path * option string)) :=
  entries ← listing; walk_entries dir entries.

(** [/\.txt$/i] *)
Definition re_txt : RegExp.t :=
  RegExp.RegExp false
    [RegExp.Atom (RegExp.chr_i ".") RegExp.Once;
     RegExp.Atom (RegExp.chr_i "t") RegExp.Once;
     RegExp.Atom (RegExp.chr_i "x") RegExp.Once;
     RegExp.Atom (RegExp.chr_i "t") RegExp.Once]
    true.

(** [/\r?\n/] *)
Definition re_newline : RegExp.t :=
  RegExp.RegExp false
    [RegExp.Atom (RegExp.chr "013") RegExp.Opt;
     RegExp.Atom (RegExp.chr "010") RegExp.Once]
    false.

Definition basename (file : path) : string := List.last file "".

(** [path.relative(root, file)] for [file] below [root], split at
    [path.sep]; the empty relative path splits into one empty segment. *)
Definition relative_parts (root file : path) : list string :=
  match drop (length root) file with
  | [] => [""]
  | parts => parts
  end.

Definition parseSchoolFile (text : string) : list string :=
  filter (λ line, truthy line && negb (startsWith "#" line) = true)
    (trim <$> RegExp.split re_newline text).

(** The loop over the lines of [stoplist.txt] and of [tlds.txt]. *)
Definition control_list (content : string) : gset string :=
  foldl (λ set line,
           let domain := toLowerCase (trim line) in
           if truthy domain && negb (startsWith "#" domain)
           then {[ domain ]} ∪ set else set)
        ∅ (RegExp.split re_newline content).

(** [readFile(path.join(libDomains, name))] *)
Fixpoint readFile (entries : list dirent) (name : string) : option string :=
  match entries with
  | [] => None
  | File n content :: rest =>
      if String.eqb n name then content else readFile rest name
  | Other n content :: rest =>
      if String.eqb n name then content else readFile rest name
  | Directory n _ :: rest =>
      if String.eqb n name then None else readFile rest name
  end.

Section Builder.

(** [domainToASCII] of [node:url]. *)
Variable domainToASCII : string → string.

Definition filePathToDomain (filePath libDomainsRoot : path) : string :=
  let parts := relative_parts libDomainsRoot filePath in
  let last := List.last parts "" in
  let parts := removelast parts ++ [RegExp.remove re_txt last] in
  let domain := join "." (rev parts) in
  domainToASCII (toLowerCase domain).

(** One iteration of the [for await] loop of [readSwot].  The path string
    of a file ends with its last segment after a separator, and [".txt"]
    holds no separator, so [file.endsWith('.txt')] is tested on the last
    segment. *)
Definition visit (libDomains : path) (institutions : gmap string (list string))
    (entry : path * option string) : gmap string (list string) :=
  let (file, read) := entry in
  if negb (endsWith ".txt" (basename file)) then institutions
  else if String.eqb (basename file) "stoplist.txt" then institutions
  else if String.eqb (basename file) "tlds.txt" then institutions
  else if String.eqb (basename file) "abused.txt" then institutions
  else
    let domain := filePathToDomain file libDomains in
    match read with
    | Some content =>
        let schoolNames := parseSchoolFile content in
        if (0 <? Z.of_nat (length schoolNames))
           && negb (bool_decide (is_Some (institutions !! domain)))
        then <[ domain := schoolNames ]> institutions
        else institutions
    | None => institutions
    end.

(** [readSwot]; [listing] is the listing of [swotRoot/lib/domains], [None]
    when the directory cannot be accessed. *)
Definition readSwot (libDomains : path) (listing : option (list dirent))
  : result SwotData :=
  match listing with
  | None => Throw "ENOENT"
  | Some entries =>
      match readFile entries "stoplist.txt" with
      | None => Throw "Failed to read stoplist.txt"
      | Some stoplistContent =>
          match readFile entries "tlds.txt" with
          | None => Throw "Failed to read tlds.txt"
          | Some tldsContent =>
              match walk libDomains listing with
              | None => Throw "readdir"
              | Some files =>
                  Ok {| institutions := foldl (visit libDomains) ∅ files;
                        stoplist := control_list stoplistContent;
                        tlds := control_list tldsContent |}
              end
          end
      end
  end.

End Builder.

(** A small dataset for the examples. *)
Definition demo : SwotData :=
  {| institutions := {[ "stanford.edu" := ["Stanford University"] ]};
     stoplist := {[ "america.edu" ]};
     tlds := {[ "edu"; "ac.uk" ]} |}.

(** ** Definitions used to state the properties *)

(** Every character of [s] satisfies [p]. *)
Fixpoint all_chars (p : ascii → bool) (s : string) : bool :=
  match s with
  | EmptyString => true
  | String c s' => p c && all_chars p s'
  end.

(** Some character of [s] is [c]. *)
Fixpoint contains (c : ascii) (s : string) : bool :=
  match s with
  | EmptyString => false
  | String d s' => Ascii.eqb d c || contains c s'
  end.

(** The strings a sequence of atoms matches, without reference to the order
    in which the matcher tries them. *)
Definition MatchesAtom (a : RegExp.atom) (u : string) : Prop :=
  match RegExp.rep a with
  | RegExp.Once => ∃ c, u = String c "" ∧ RegExp.cls a c = true
  | RegExp.Opt => u = "" ∨ ∃ c, u = String c "" ∧ RegExp.cls a c = true
  | RegExp.Star => all_chars (RegExp.cls a) u = true
  | RegExp.Plus => u ≠ "" ∧ all_chars (RegExp.cls a) u = true
  end.

Inductive Matches : list RegExp.atom → string → Prop :=
  | Matches_nil : Matches [] ""
  | Matches_cons a re u v :
      MatchesAtom a u → Matches re v → Matches (a :: re) (u +:+ v).

(** The values the accumulator takes during the walk, in order. *)
Fixpoint tested (subj : string) (parts : list string) : list string :=
  match parts with
  | [] => []
  | part :: rest => extend subj part :: tested (extend subj part) rest
  end.


(** The coarse shape in the words of the specification: a non-empty run of
    characters that are neither white space nor [@], an [@], and another such
    run that contains a [.]. *)
Definition coarse_shape (email : string) : Prop :=
  ∃ loc dom,
    email = loc +:+ "@" +:+ dom
    ∧ loc ≠ "" ∧ all_chars not_space_at loc = true
    ∧ all_chars not_space_at dom = true ∧ contains "." dom = true.

(** The shape with the [.] inside the second run: a non-empty run on each
    side of it. *)
Definition email_shape (email : string) : Prop :=
  ∃ loc x y,
    email = loc +:+ "@" +:+ x +:+ "." +:+ y
    ∧ (loc ≠ "" ∧ all_chars not_space_at loc = true)
    ∧ (x ≠ "" ∧ all_chars not_space_at x = true)
    ∧ (y ≠ "" ∧ all_chars not_space_at y = true).

(** The suffix walk in the words of the specification: the first label alone,
    then [label.accumulator] at every later label. *)
Fixpoint checkSet_spec_from (set : gset string) (acc : option string)
    (labels : list string) : bool :=
  match labels with
  | [] => false
  | label :: rest =>
      let acc' := match acc with
                  | None => label
                  | Some a => label +:+ "." +:+ a
                  end in
      if decide (acc' ∈ set) then true
      else checkSet_spec_from set (Some acc') rest
  end.

Definition checkSet_spec (set : gset string) (labels : list string) : bool :=
  checkSet_spec_from set None labels.

(** Leading empty labels dropped. *)
Fixpoint drop_empty (labels : list string) : list string :=
  match labels with
  | "" :: rest => drop_empty rest
  | _ => labels
  end.

(** The dot-joined name of a TLD-first label sequence, most specific label
    first, without the empty labels at its top. *)
Definition name_of (labels : list string) : string :=
  join "." (rev (drop_empty labels)).

(** The suffix made of the first [k] labels. *)
Definition suffix (k : nat) (parts : list string) : string :=
  name_of (take k parts).

(** A key bound to a non-empty list of names. *)
Definition hit (m : gmap string (list string)) (key : string) : bool :=
  match m !! key with
  | Some (_ :: _) => true
  | _ => false
  end.

(** The steps of the normaliser, each as a function of its own. *)

(** The text after the first [c]; [None] when [s] has no [c]. *)
Fixpoint find_after (c : ascii) (s : string) : option string :=
  match s with
  | EmptyString => None
  | String d s' => if Ascii.eqb d c then Some s' else find_after c s'
  end.

(** The text after the last [c]; [None] when [s] has no [c]. *)
Fixpoint find_after_last (c : ascii) (s : string) : option string :=
  match s with
  | EmptyString => None
  | String d s' =>
      match find_after_last c s' with
      | Some r => Some r
      | None => if Ascii.eqb d c then Some s' else None
      end
  end.

(** Everything up to and including the first [c] discarded. *)
Definition after_first (c : ascii) (s : string) : string :=
  default s (find_after c s).

(** Everything up to and including the final [c] discarded. *)
Definition after_last (c : ascii) (s : string) : string :=
  default s (find_after_last c s).

(** The substring before the first [c]; all of [s] when it has no [c]. *)
Fixpoint before_first (c : ascii) (s : string) : string :=
  match s with
  | EmptyString => EmptyString
  | String d s' => if Ascii.eqb d c then EmptyString else String d (before_first c s')
  end.

(** The rest of [s] from its first [c] on. *)
Fixpoint from_first (c : ascii) (s : string) : string :=
  match s with
  | EmptyString => EmptyString
  | String d s' => if Ascii.eqb d c then s else from_first c s'
  end.

Fixpoint skip_letters (s : string) : string :=
  match s with
  | EmptyString => EmptyString
  | String c s' => if Char.between 97 122 c then skip_letters s' else s
  end.

(** A leading [scheme://] stripped: one or more letters [a-z], then [://]. *)
Definition strip_scheme (s : string) : string :=
  let rest := skip_letters s in
  if negb (String.eqb rest s) && startsWith "://" rest
  then drop_chars 3 rest else s.

(** The label sequence of a host: none for the empty host. *)
Definition labels_of (host : string) : list string :=
  if String.eqb host "" then [] else rev (split "." host).

(** The normaliser in the words of the specification. *)
Definition domainParts_spec (input : string) : list string :=
  let raw := toLowerCase (trim input) in
  labels_of
    (before_first ":" (before_first "/" (strip_scheme (after_last "@" raw)))).

(** The normaliser with the two [@] steps of the code: the first [@] of the
    input ends what is discarded first, and after the cut at the first [/]
    everything up to the final [@] of what is left is discarded. *)
Definition domainParts_steps (input : string) : list string :=
  let raw := toLowerCase (trim input) in
  labels_of
    (before_first ":"
       (after_last "@"
          (before_first "/" (strip_scheme (after_first "@" raw))))).

(** Canonical domain keys: lower-case labels joined by dots.  A character
    of a label is not white space, none of [@], [/], [:] and [.], and is
    its own lower-case form; a label is not empty. *)
Definition host_char (c : ascii) : bool :=
  negb (Char.isWhiteSpace c)
  && negb (Ascii.eqb c "@") && negb (Ascii.eqb c "/") && negb (Ascii.eqb c ":")
  && Ascii.eqb (Char.toLowerCase c) c.

Definition label_char (c : ascii) : bool :=
  host_char c && negb (Ascii.eqb c ".").

Definition is_label (l : string) : Prop :=
  l ≠ "" ∧ all_chars label_char l = true.

Definition canonical_key (d : string) : Prop :=
  ∃ labels, labels ≠ [] ∧ Forall is_label labels ∧ d = join "." labels.

Definition demo_empty_entry : SwotData :=
  {| institutions := {[ "edu" := [];
                        "stanford.edu" := ["Stanford University"] ]};
     stoplist := ∅;
     tlds := ∅ |}.

(** The synthetic tree: the two control lists, which the build cannot do
    without, and the one institution file [edu/stanford.txt]. *)
Definition stanford_tree (stoplistContent tldsContent : string) : list dirent :=
  [ File "stoplist.txt" (Some stoplistContent);
    File "tlds.txt" (Some tldsContent);
    Directory "edu" (Some [File "stanford.txt" (Some "Stanford University")]) ].

(** A tree with a comment-only file, an unreadable file and two files of the
    same key. *)
Definition merge_tree : list dirent :=
  [ File "stoplist.txt" (Some "# excluded
America.edu
");
    File "tlds.txt" (Some "edu
ac.uk");
    File "abused.txt" (Some "abused.example");
    Directory "edu"
      (Some [ File "stanford.txt" (Some "Stanford University");
              File "nothing.txt" (Some "# no name yet
");
              File "locked.txt" None;
              File "README.md" (Some "not a list") ]);
    Directory "EDU" (Some [ File "Stanford.txt" (Some "Leland Stanford Junior University") ]) ].

Definition merge_data : SwotData :=
  {| institutions := {[ "stanford.edu" := ["Stanford University"] ]};
     stoplist := {[ "america.edu" ]};
     tlds := {[ "edu"; "ac.uk" ]} |}.

(** ** Definitions used by the further properties *)

(** A class that does not tell a letter from its lower-case form. *)
Definition case_blind (a : RegExp.atom) : Prop :=
  ∀ c, RegExp.cls a (Char.toLowerCase c) = RegExp.cls a c.

(** A letter of a URL scheme as it may be typed: [A-Z] or [a-z]. *)
Definition ascii_letter (c : ascii) : bool :=
  Char.between 65 90 c || Char.between 97 122 c.

(** What may follow the host in a URL: nothing, a path or a port. *)
Definition host_end (tail : string) : bool :=
  match tail with
  | EmptyString => true
  | String c _ => Ascii.eqb c "/" || Ascii.eqb c ":"
  end.

(** The answers for [child] that follow from the answers for [parent]. *)
Definition inherits (DATA : SwotData) (parent child : string) : Prop :=
  (isStoplisted DATA parent = true → isStoplisted DATA child = true)
  ∧ (isUnderTLD DATA parent = true → isUnderTLD DATA child = true)
  ∧ (findSchoolNames DATA parent ≠ [] →
       findSchoolNames DATA child = findSchoolNames DATA parent)
  ∧ (isStoplisted DATA parent = true → isAcademic DATA child = false).

(** No white space at the start. *)
Definition no_leading_space (s : string) : bool :=
  match s with
  | EmptyString => true
  | String c _ => negb (Char.isWhiteSpace c)
  end.

(** A character of a line: neither carriage return nor line feed. *)
Definition line_char (c : ascii) : bool :=
  negb (Ascii.eqb c "013") && negb (Ascii.eqb c "010").

(** What [parseSchoolFile] keeps of the trimmed lines. *)
Definition kept_lines (lines : list string) : list string :=
  filter (λ line, truthy line && negb (startsWith "#" line) = true)
    (trim <$> lines).

(** What a walked file offers to the institution map: its key and its
    names, when it passes the name filter, can be read and has names. *)
Definition offer (domainToASCII : string → string) (libDomains : path)
    (entry : path * option string) : option (string * list string) :=
  let (file, read) := entry in
  if endsWith ".txt" (basename file)
     && negb (String.eqb (basename file) "stoplist.txt")
     && negb (String.eqb (basename file) "tlds.txt")
     && negb (String.eqb (basename file) "abused.txt")
  then match read with
       | Some content =>
           match parseSchoolFile content with
           | [] => None
           | names => Some (filePathToDomain domainToASCII file libDomains, names)
           end
       | None => None
       end
  else None.

(** The names of the first offer for [key]. *)
Fixpoint first_offer (key : string) (offers : list (string * list string))
  : option (list string) :=
  match offers with
  | [] => None
  | (k, names) :: rest =>
      if String.eqb k key then Some names else first_offer key rest
  end.

(** Every directory of the tree can be listed. *)
Fixpoint listable (e : dirent) : bool :=
  match e with
  | Directory _ None => false
  | Directory _ (Some sub) =>
      (fix all (entries : list dirent) :=
         match entries with
         | [] => true
         | e' :: rest => listable e' && all rest
         end) sub
  | File _ _ | Other _ _ => true
  end.

Fixpoint all_listable (entries : list dirent) : bool :=
  match entries with
  | [] => true
  | e :: rest => listable e && all_listable rest
  end.

(** The packed dataset [main] writes: [Object.fromEntries] of the map and
    [Array.from] of the two sets.  The order of the arrays plays no part,
    the loader makes sets of them again. *)
Definition pack (data : SwotData) : SwotDataPacked :=
  {| packed_institutions := institutions data;
     packed_stoplist := elements (stoplist data);
     packed_tlds := elements (tlds data) |}.

(** The value [JSON.parse] makes of the text [JSON.stringify] writes for a
    packed dataset: an object of three fields, the map an object of arrays
    of strings, the two lists arrays of strings. *)
Definition names_json (names : list string) : json := JArray (JString <$> names).

Definition to_json (packed : SwotDataPacked) : json :=
  JObject
    [("institutions",
      JObject (prod_map id names_json <$> map_to_list (packed_institutions packed)));
     ("stoplist", names_json (packed_stoplist packed));
     ("tlds", names_json (packed_tlds packed))].

(** The dataset of a packed one: the map as it is, the two lists lower-cased
    into sets. *)
Definition unpacked (packed : SwotDataPacked) : SwotData :=
  {| institutions := packed_institutions packed;
     stoplist := list_to_set (toLowerCase <$> packed_stoplist packed);
     tlds := list_to_set (toLowerCase <$> packed_tlds packed) |}.

(** The dataset with nothing in it. *)
Definition empty_data : SwotData :=
  {| institutions := ∅; stoplist := ∅; tlds := ∅ |}.

(** Parsers of a few artifacts, for the examples: the text is the
    decompressed content of the file. *)
Definition identity_decompress (compressed : string) : option string :=
  Some compressed.

Definition parse_samples (text : string) : option json :=
  if String.eqb text "null" then Some JNull
  else if String.eqb text "{}" then Some (JObject [])
  else if String.eqb text "[]" then Some (JArray [])
  else if String.eqb text "7" then Some (JNumber "7")
  else None.

(** The dataset without the institution entry of [key]. *)
Definition without_institution (key : string) (DATA : SwotData) : SwotData :=
  {| institutions := delete key (institutions DATA);
     stoplist := stoplist DATA;
     tlds := tlds DATA |}.

(** A dataset whose institution key holds a capital. *)
Definition demo_capital_key : SwotData :=
  {| institutions := {[ "Stanford.edu" := ["Stanford University"] ]};
     stoplist := ∅;
     tlds := ∅ |}.

(** The provenance record ([getSwotInfo]).  The three [execSync] calls sit
    in one [try] block: [None] stands for a call that throws.  The
    environment variables and the clock are arguments. *)
Record SwotInfo := {
  info_commit : string;
  info_date : string;
  info_url : string;
  info_updatedAt : string;
  info_error : option string;
}.

Definition getSwotInfo (git_commit git_date git_url : option string)
    (env_commit env_date : option string) (now : string) : SwotInfo :=
  match git_commit, git_date, git_url with
  | Some commit, Some date, Some url =>
      {| info_commit := trim commit;
         info_date := trim date;
         info_url := if truthy (trim url) then trim url
                     else "https://github.com/jetbrains/swot";
         info_updatedAt := now;
         info_error := None |}
  | _, _, _ =>
      {| info_commit := if truthy (default "" env_commit)
                        then default "" env_commit else "unknown";
         info_date := if truthy (default "" env_date)
                      then default "" env_date else "unknown";
         info_url := "https://github.com/jetbrains/swot";
         info_updatedAt := now;
         info_error := Some "Failed to get git info" |}
  end.

(** An environment variable, or ["unknown"] when it is not set or is empty. *)
Definition or_unknown (variable : option string) : string :=
  match variable with
  | Some (String c rest) => String c rest
  | Some "" | None => "unknown"
  end.

Definition swot_url : string := "https://github.com/jetbrains/swot".

(** * Properties *)

(** ** The documented examples, over a small dataset *)

Example domainParts_email :
  domainParts "alice@cs.stanford.edu" = ["edu"; "stanford"; "cs"].
Proof. vm_compute; reflexivity. Qed.

Example domainParts_url :
  domainParts "  HTTPS://user:pw@Mail.America.EDU:8080/path?x  "
  = ["edu"; "america"; "mail"].
Proof. vm_compute; reflexivity. Qed.

Example domainParts_empty : domainParts "user@" = [] ∧ domainParts "   " = [].
Proof. split; vm_compute; reflexivity. Qed.

Example isAcademic_examples :
  isAcademic demo "jane.doe@ox.ac.uk" = true
  ∧ isAcademic demo "user@gmail.com" = false
  ∧ isAcademic demo "alice@cs.stanford.edu" = true
  ∧ isAcademic demo "dean@america.edu" = false
  ∧ isAcademic demo "not an email" = false.
Proof. repeat split; vm_compute; reflexivity. Qed.

Example query_examples :
  isUnderTLD demo "prof@university.edu" = true
  ∧ isStoplisted demo "https://mail.america.edu" = true
  ∧ findSchoolNames demo "alice@cs.stanford.edu" = ["Stanford University"]
  ∧ findSchoolNames demo "user@unknown.example" = [].
Proof. repeat split; vm_compute; reflexivity. Qed.

Example parseSchoolFile_example :
  parseSchoolFile "# a comment
  Stanford University  

Leland Stanford Junior University
" = ["Stanford University"; "Leland Stanford Junior University"].
Proof. vm_compute; reflexivity. Qed.

Example filePathToDomain_example :
  filePathToDomain (λ d, d) ["swot"; "lib"; "domains"; "uk"; "ac"; "Ox.TXT"]
    ["swot"; "lib"; "domains"]
  = "ox.ac.uk".
Proof. vm_compute; reflexivity. Qed.

(** ** The suffix walk *)

Lemma checkSet_from_empty subj parts : checkSet_from ∅ subj parts = false.
Proof.
  revert subj. induction parts as [|part rest IH]; intros subj; simpl; [done|].
  case_decide as Hin; [|apply IH]. by apply not_elem_of_empty in Hin.
Qed.

Lemma findSchoolNames_from_empty subj parts :
  findSchoolNames_from ∅ subj parts = [].
Proof.
  revert subj. induction parts as [|part rest IH]; intros subj; simpl; [done|].
  by rewrite lookup_empty.
Qed.

(** ** C4 *)

(** C4.  For every dataset and every input, a stoplisted input is not
    academic, whatever the TLD set and the institution map hold. *)
Theorem stoplist_overrides (DATA : SwotData) (e : string) :
  isStoplisted DATA e = true → isAcademic DATA e = false.
Proof.
  intros Hstop. unfold isAcademic. rewrite Hstop.
  by destruct (RegExp.test re_email e).
Qed.

Lemma stoplist_overrides_witness :
  isStoplisted demo "user@mail.america.edu" = true
  ∧ isUnderTLD demo "user@mail.america.edu" = true
  ∧ isAcademic demo "user@mail.america.edu" = false.
Proof.
  split; [vm_compute; reflexivity|]. split; [vm_compute; reflexivity|].
  apply (stoplist_overrides demo "user@mail.america.edu").
  vm_compute; reflexivity.
Defined.

(** ** C6 *)



(** The load on a few values [JSON.parse] can return.  An [institutions]
    that is a number or an empty array has no entries; a [stoplist] that
    holds a number, or is an object, has no usable [map]; an institution
    value that is a string leaves the declared type. *)
Example loadData_shapes :
  let load := λ value, loadData identity_decompress (λ _, Some value) (Some "") in
  load (JArray []) = TypeError
  ∧ load (JNumber "7") = TypeError
  ∧ load (JString "institutions") = TypeError
  ∧ load (JObject [("institutions", JObject []); ("stoplist", JArray [])])
    = TypeError
  ∧ load (JObject [("institutions", JObject []);
                   ("stoplist", JArray [JString "a.edu"; JNumber "1"]);
                   ("tlds", JArray [])])
    = TypeError
  ∧ load (JObject [("institutions", JObject []);
                   ("stoplist", JObject [("map", JArray [])]);
                   ("tlds", JArray [])])
    = TypeError
  ∧ load (JObject [("institutions", JNumber "7"); ("stoplist", JArray []);
                   ("tlds", JArray [])])
    = Loaded empty_data
  ∧ load (JObject [("institutions", JArray []); ("stoplist", JArray []);
                   ("tlds", JArray [])])
    = Loaded empty_data
  ∧ load (JObject [("institutions", JObject [("a.edu", JString "A")]);
                   ("stoplist", JArray []); ("tlds", JArray [])])
    = Untyped
  ∧ load (JObject [("institutions", JArray [JArray [JString "A"]]);
                   ("stoplist", JArray [JString "B.Edu"]);
                   ("tlds", JArray []);
                   ("stoplist", JArray [JString "C.Edu"])])
    = Loaded {| institutions := {[ "0" := ["A"] ]};
                stoplist := {[ "c.edu" ]};
                tlds := ∅ |}.
Proof. repeat split; vm_compute; reflexivity. Qed.

(** ** The matcher against the declarative reading of a pattern *)

Lemma append_nil_r (s : string) : s +:+ "" = s.
Proof. induction s; simpl; congruence. Qed.

Lemma append_assoc (s t u : string) : (s +:+ t) +:+ u = s +:+ t +:+ u.
Proof. induction s; simpl; congruence. Qed.

Lemma all_chars_app p s t :
  all_chars p (s +:+ t) = all_chars p s && all_chars p t.
Proof. induction s; simpl; [done|]. rewrite IHs. by rewrite andb_assoc. Qed.

Lemma many_sound p k s r :
  RegExp.many p k s = Some r →
  ∃ u v, s = u +:+ v ∧ all_chars p u = true ∧ k v = Some r.
Proof.
  revert r. induction s as [|c s IH]; intros r; simpl.
  - intros Hk. by exists "", "".
  - destruct (p c) eqn:Hc.
    + destruct (RegExp.many p k s) as [r'|] eqn:Hm.
      * intros [= <-]. destruct (IH r' eq_refl) as (u & v & -> & Hu & Hk).
        exists (String c u), v. simpl. by rewrite Hc, Hu.
      * intros Hk. by exists "", (String c s).
    + intros Hk. by exists "", (String c s).
Qed.

Lemma many_complete p k u v :
  all_chars p u = true → is_Some (k v) → is_Some (RegExp.many p k (u +:+ v)).
Proof.
  intros Hu Hk. induction u as [|c u IH]; simpl in *.
  - destruct v as [|d v]; simpl; [done|].
    destruct (p d); [|done]. by destruct (RegExp.many p k v).
  - apply andb_prop in Hu as [-> Hu].
    destruct (IH Hu) as [r ->]. by eexists.
Qed.

Lemma Matches_char a re c v :
  RegExp.cls a c = true → RegExp.rep a ≠ RegExp.Star → Matches re v →
  Matches (a :: re) (String c v).
Proof.
  intros Hc Hrep Hv. change (String c v) with (String c "" +:+ v).
  constructor; [|done]. unfold MatchesAtom.
  destruct (RegExp.rep a); [eauto|eauto|done|simpl; by rewrite Hc].
Qed.

Lemma Matches_skip a re v :
  RegExp.rep a = RegExp.Opt ∨ RegExp.rep a = RegExp.Star → Matches re v →
  Matches (a :: re) v.
Proof.
  intros Hrep Hv. change v with ("" +:+ v). constructor; [|done].
  unfold MatchesAtom. destruct Hrep as [-> | ->]; [by left|done].
Qed.

Lemma Matches_run a re u v :
  all_chars (RegExp.cls a) u = true →
  RegExp.rep a = RegExp.Star ∨ (RegExp.rep a = RegExp.Plus ∧ u ≠ "") →
  Matches re v → Matches (a :: re) (u +:+ v).
Proof.
  intros Hu Hrep Hv. constructor; [|done]. unfold MatchesAtom.
  by destruct Hrep as [-> | [-> ?]].
Qed.

Lemma exec_sound re k s r :
  RegExp.exec re k s = Some r →
  ∃ u v, s = u +:+ v ∧ Matches re u ∧ k v = Some r.
Proof.
  revert k s r. induction re as [|a re IH]; intros k s r; simpl.
  - intros Hk. exists "", s. split; [done|]. split; [constructor|done].
  - destruct (RegExp.rep a) eqn:Hrep.
    + destruct s as [|c s']; [done|]. destruct (RegExp.cls a c) eqn:Hc; [|done].
      intros (u & v & -> & Hu & Hk)%IH. exists (String c u), v.
      split; [done|]. split; [|done]. apply Matches_char; [done|congruence|done].
    + assert (Hskip : ∀ t, RegExp.exec re k t = Some r →
        ∃ u v, t = u +:+ v ∧ Matches (a :: re) u ∧ k v = Some r).
      { intros t (u & v & -> & Hu & Hk)%IH. exists u, v.
        split; [done|]. split; [|done]. apply Matches_skip; auto. }
      destruct s as [|c s']; [by apply Hskip|].
      destruct (RegExp.cls a c) eqn:Hc; [|by apply Hskip].
      destruct (RegExp.exec re k s') as [r'|] eqn:He; [|by apply Hskip].
      intros [= ->]. apply IH in He as (u & v & -> & Hu & Hk).
      exists (String c u), v. split; [done|]. split; [|done].
      apply Matches_char; [done|congruence|done].
    + intros (u & w & -> & Hu & (u' & v & -> & Hu' & Hk)%IH)%many_sound.
      exists (u +:+ u'), v. rewrite append_assoc. split; [done|].
      split; [|done]. apply Matches_run; auto.
    + destruct s as [|c s']; [done|]. destruct (RegExp.cls a c) eqn:Hc; [|done].
      intros (u & w & -> & Hu & (u' & v & -> & Hu' & Hk)%IH)%many_sound.
      exists (String c u +:+ u'), v. simpl. rewrite append_assoc.
      split; [done|]. split; [|done].
      change (String c (u +:+ u')) with (String c u +:+ u').
      apply Matches_run; [simpl; by rewrite Hc|by right|done].
Qed.

Lemma exec_complete re k u v :
  Matches re u → is_Some (k v) → is_Some (RegExp.exec re k (u +:+ v)).
Proof.
  intros Hm. revert k v. induction Hm as [|a re u w Ha Hw IH]; intros k v Hk.
  - done.
  - rewrite append_assoc. specialize (IH k v Hk). simpl.
    unfold MatchesAtom in Ha. destruct (RegExp.rep a) eqn:Hrep.
    + destruct Ha as (c & -> & Hc). simpl. by rewrite Hc.
    + destruct Ha as [-> | (c & -> & Hc)]; simpl.
      * destruct (w +:+ v) as [|d t] eqn:Hwv; [done|].
        destruct (RegExp.cls a d); [|done].
        by destruct (RegExp.exec re k t).
      * rewrite Hc. destruct IH as [r ->]. by eexists.
    + by apply many_complete.
    + destruct Ha as [Hne Hu]. destruct u as [|c u]; [done|]. simpl in *.
      apply andb_prop in Hu as [-> Hu]. by apply many_complete.
Qed.

(** [re.test(s)] for a pattern anchored at both ends. *)
Lemma test_anchored body s :
  RegExp.test (RegExp.RegExp true body true) s = true ↔ Matches body s.
Proof.
  unfold RegExp.test. destruct s as [|c s]; simpl; unfold RegExp.match_at; simpl.
  all: match goal with |- context [RegExp.exec ?b ?k ?t] =>
         destruct (RegExp.exec b k t) as [r|] eqn:He end.
  all: split; try done.
  - intros _. apply exec_sound in He as (u & v & Hs & Hu & Hk).
    destruct v; [|done]. rewrite append_nil_r in Hs. by subst.
  - intros Hm. pose proof (exec_complete body (RegExp.at_end true) "" "" Hm) as H.
    simpl in H. rewrite He in H. by destruct H.
  - intros _. apply exec_sound in He as (u & v & Hs & Hu & Hk).
    destruct v; [|done]. rewrite append_nil_r in Hs. by subst.
  - intros Hm.
    pose proof (exec_complete body (RegExp.at_end true) (String c s) "" Hm) as H.
    rewrite append_nil_r in H. simpl in H. rewrite He in H.
    destruct H as [? H]; [by eexists|done].
Qed.

(** ** C1 *)

Lemma test_re_email email : RegExp.test re_email email = true ↔ email_shape email.
Proof.
  unfold re_email. rewrite test_anchored. split.
  - intros H.
    inversion H as [|? ? loc r1 Hloc H1]; subst; clear H.
    inversion H1 as [|? ? at1 r2 Hat H2]; subst; clear H1.
    inversion H2 as [|? ? x r3 Hx H3]; subst; clear H2.
    inversion H3 as [|? ? dot r4 Hdot H4]; subst; clear H3.
    inversion H4 as [|? ? y r5 Hy H5]; subst; clear H4.
    inversion H5; subst; clear H5.
    unfold MatchesAtom in *; cbn [RegExp.rep RegExp.cls] in *.
    unfold RegExp.chr in *.
    destruct Hat as (c & -> & <-%Ascii.eqb_eq).
    destruct Hdot as (d & -> & <-%Ascii.eqb_eq).
    exists loc, x, y. by rewrite append_nil_r.
  - intros (loc & x & y & -> & Hloc & Hx & Hy).
    constructor; [done|].
    change ("@" +:+ x +:+ "." +:+ y) with ("@" +:+ (x +:+ "." +:+ y)).
    constructor; [by exists "@"%char|].
    constructor; [done|].
    change ("." +:+ y) with ("." +:+ y).
    replace y with (y +:+ "") at 1 by apply append_nil_r.
    change ("." +:+ y +:+ "") with ("." +:+ (y +:+ "")).
    constructor; [by exists "."%char|].
    constructor; [done|constructor].
Qed.

Lemma length_pos_nonempty {A} (l : list A) :
  (0 <? Z.of_nat (length l)) = bool_decide (l ≠ []).
Proof. by destruct l. Qed.

(** C1 (amended).  [isAcademic] answers [false] on every string that is not
    of the shape run [@] run [.] run, each run non-empty and free of white
    space and [@]; on a string of that shape it answers
    [NOT isStoplisted AND (isUnderTLD OR findSchoolNames non-empty)]. *)
Theorem isAcademic_shape (DATA : SwotData) (email : string) :
  (¬ email_shape email ∧ isAcademic DATA email = false)
  ∨ (email_shape email
     ∧ isAcademic DATA email
       = negb (isStoplisted DATA email)
         && (isUnderTLD DATA email
             || bool_decide (findSchoolNames DATA email ≠ []))).
Proof.
  unfold isAcademic. rewrite length_pos_nonempty.
  destruct (RegExp.test re_email email) eqn:Htest.
  - right. by apply test_re_email in Htest.
  - left. split; [|done]. intros H%test_re_email. congruence.
Qed.

(** C1 as stated fails: ["a@.edu"] has a second run containing a [.], is not
    stoplisted and is under the TLD [edu], and [isAcademic] answers [false]. *)
Lemma isAcademic_shape_counterexample :
  coarse_shape "a@.edu"
  ∧ negb (isStoplisted demo "a@.edu")
    && (isUnderTLD demo "a@.edu" || bool_decide (findSchoolNames demo "a@.edu" ≠ []))
    = true
  ∧ isAcademic demo "a@.edu" = false.
Proof.
  split; [|split; vm_compute; reflexivity].
  exists "a", ".edu". repeat split; done.
Qed.

(** ** The accumulator of the suffix walk in closed form *)

Lemma truthy_nonempty s : truthy s = true ↔ s ≠ "".
Proof. by destruct s. Qed.

Lemma append_nonempty_r s t : t ≠ "" → s +:+ t ≠ "".
Proof. destruct s; simpl; [done|]. by intros _. Qed.

Lemma join_snoc_nonempty (ls : list string) (x : string) :
  x ≠ "" → join "." (ls ++ [x]) ≠ "".
Proof.
  intros Hx. induction ls as [|l ls IH]; simpl; [done|].
  destruct (ls ++ [x]) eqn:E; [by destruct ls|].
  by apply append_nonempty_r.
Qed.

Lemma drop_empty_all_empty (pre : list string) (part : string) :
  drop_empty pre = [] → name_of (pre ++ [part]) = part.
Proof.
  unfold name_of. induction pre as [|p pre IH]; simpl.
  - intros _. by destruct part.
  - destruct p; [done|]. by intros.
Qed.

Lemma drop_empty_snoc (pre : list string) (part : string) :
  drop_empty pre ≠ [] → drop_empty (pre ++ [part]) = drop_empty pre ++ [part].
Proof.
  induction pre as [|p pre IH]; simpl; [done|]. by destruct p.
Qed.

Lemma drop_empty_head (pre : list string) x xs :
  drop_empty pre = x :: xs → x ≠ "".
Proof.
  induction pre as [|p pre IH]; simpl; [done|].
  destruct p; [done|]. by intros [= <- _].
Qed.

Lemma extend_name_of (pre : list string) (part : string) :
  extend (name_of pre) part = name_of (pre ++ [part]).
Proof.
  destruct (drop_empty pre) as [|x xs] eqn:E.
  - rewrite drop_empty_all_empty by done. unfold name_of. by rewrite E.
  - unfold name_of, extend. rewrite drop_empty_snoc by congruence.
    rewrite E, rev_app_distr. simpl.
    assert (Hne : join "." (rev xs ++ [x]) ≠ "").
    { apply join_snoc_nonempty. eapply drop_empty_head; eauto. }
    apply truthy_nonempty in Hne as Ht. rewrite Ht.
    destruct (rev xs ++ [x]) eqn:E'; [by destruct (rev xs)|done].
Qed.

Lemma take_snoc_S {A} (l : list A) (x : A) (rest : list A) (k : nat) :
  l ++ take (S k) (x :: rest) = (l ++ [x]) ++ take k rest.
Proof. by rewrite <- app_assoc. Qed.

Lemma checkSet_from_name_of set (pre parts : list string) :
  checkSet_from set (name_of pre) parts = true
  ↔ ∃ k, (1 ≤ k ≤ length parts)%nat ∧ name_of (pre ++ take k parts) ∈ set.
Proof.
  revert pre. induction parts as [|part rest IH]; intros pre; simpl.
  - split; [done|]. intros (k & Hk & _). lia.
  - rewrite extend_name_of. case_decide as Hin.
    + split; [|done]. intros _. exists 1%nat. split; [lia|done].
    + rewrite IH. split.
      * intros (k & Hk & Hm). exists (S k). split; [lia|].
        by rewrite take_snoc_S.
      * intros (k & Hk & Hm). destruct k as [|k]; [lia|].
        rewrite take_snoc_S in Hm. destruct k as [|k].
        { rewrite take_0, app_nil_r in Hm. done. }
        exists (S k). split; [lia|done].
Qed.

Lemma findSchoolNames_from_skip m (pre parts : list string) (k : nat) :
  (k ≤ length parts)%nat →
  (∀ j, (1 ≤ j ≤ k)%nat → hit m (name_of (pre ++ take j parts)) = false) →
  findSchoolNames_from m (name_of pre) parts
  = findSchoolNames_from m (name_of (pre ++ take k parts)) (drop k parts).
Proof.
  revert pre parts. induction k as [|k IH]; intros pre parts Hk Hno.
  - by rewrite take_0, drop_0, app_nil_r.
  - destruct parts as [|part rest]; simpl in Hk; [lia|].
    rewrite take_snoc_S. simpl. rewrite extend_name_of.
    pose proof (Hno 1%nat ltac:(lia)) as H1. simpl in H1.
    rewrite take_0 in H1. unfold hit in H1.
    rewrite <- IH; [|lia|].
    + destruct (m !! name_of (pre ++ [part])) as [[|? ?]|]; done.
    + intros j Hj. specialize (Hno (S j) ltac:(lia)).
      by rewrite take_snoc_S in Hno.
Qed.

Lemma findSchoolNames_from_hit m (subj part : string) (rest : list string) :
  hit m (extend subj part) = true →
  m !! extend subj part = Some (findSchoolNames_from m subj (part :: rest)).
Proof.
  unfold hit. simpl. by destruct (m !! extend subj part) as [[|? ?]|].
Qed.

Lemma findSchoolNames_from_nil m (subj : string) (parts : list string) :
  findSchoolNames_from m subj parts = [] →
  ∀ s, s ∈ tested subj parts → hit m s = false.
Proof.
  revert subj. induction parts as [|part rest IH]; intros subj; simpl.
  - intros _ s Hs. by apply elem_of_nil in Hs.
  - unfold hit at 1. intros Hres s Hs.
    destruct (m !! extend subj part) as [[|n names]|] eqn:E; try done.
    all: apply elem_of_cons in Hs as [->|Hs]; [unfold hit; by rewrite E|eauto].
Qed.

Lemma tested_name_of (pre parts : list string) (k : nat) :
  (1 ≤ k ≤ length parts)%nat →
  name_of (pre ++ take k parts) ∈ tested (name_of pre) parts.
Proof.
  revert pre k. induction parts as [|part rest IH]; intros pre k Hk; simpl in *.
  - lia.
  - destruct k as [|k]; [lia|]. rewrite take_snoc_S, extend_name_of.
    destruct k as [|k].
    + rewrite take_0, app_nil_r. left.
    + right. apply IH. lia.
Qed.

Lemma suffix_take_app (parts more : list string) (j k : nat) :
  (j ≤ k ≤ length parts)%nat → suffix j (take k parts ++ more) = suffix j parts.
Proof.
  intros Hjk. unfold suffix. f_equal.
  rewrite take_app_le by (rewrite length_take; lia).
  rewrite take_take. f_equal. lia.
Qed.

Lemma checkSet_suffix set (parts : list string) :
  checkSet set parts = true
  ↔ ∃ k, (1 ≤ k ≤ length parts)%nat ∧ suffix k parts ∈ set.
Proof. apply (checkSet_from_name_of set [] parts). Qed.

Lemma findSchoolNames_from_skip_top m (parts : list string) (k : nat) :
  (k ≤ length parts)%nat →
  (∀ j, (1 ≤ j ≤ k)%nat → hit m (suffix j parts) = false) →
  findSchoolNames_from m "" parts
  = findSchoolNames_from m (suffix k parts) (drop k parts).
Proof. apply (findSchoolNames_from_skip m [] parts k). Qed.

Lemma findSchoolNames_from_first_hit m (parts : list string) (k : nat) :
  (1 ≤ k ≤ length parts)%nat →
  hit m (suffix k parts) = true →
  (∀ j, (1 ≤ j < k)%nat → hit m (suffix j parts) = false) →
  m !! suffix k parts = Some (findSchoolNames_from m "" parts).
Proof.
  intros Hk Hhit Hno. destruct k as [|k]; [lia|].
  rewrite (findSchoolNames_from_skip_top m parts k); [|lia|].
  2:{ intros j Hj. apply Hno. lia. }
  unfold suffix at 2.
  destruct (lookup_lt_is_Some_2 parts k ltac:(lia)) as [part Hpart].
  rewrite (drop_S _ _ _ Hpart). simpl app.
  assert (Hs : suffix (S k) parts = extend (name_of (take k parts)) part).
  { unfold suffix. rewrite (take_S_r _ _ _ Hpart). by rewrite extend_name_of. }
  rewrite Hs in *. by apply findSchoolNames_from_hit.
Qed.

Lemma findSchoolNames_from_no_hit m (parts : list string) :
  findSchoolNames_from m "" parts = []
  ↔ ∀ k, (1 ≤ k ≤ length parts)%nat → hit m (suffix k parts) = false.
Proof.
  split.
  - intros Hnil k Hk. eapply findSchoolNames_from_nil; [done|].
    apply (tested_name_of [] parts k Hk).
  - intros Hno.
    rewrite (findSchoolNames_from_skip_top m parts (length parts)); [|lia|done].
    by rewrite drop_all.
Qed.

(** ** C3 *)

(** C3 (amended).  For every label sequence, suffix set and suffix-keyed map:
    the accumulator after [k] labels is the dot-joined name of those labels,
    most specific first, with empty labels at the top dropped (an empty
    accumulator is replaced by the next label, not extended); [checkSet]
    answers [true] exactly when one of these suffixes is in the set, and the
    labels after the first hit play no part; the map form returns the list
    bound to the least specific suffix that is bound to a non-empty list,
    and [[]] when there is none. *)
Theorem least_specific_suffix_wins
    (set : gset string) (m : gmap string (list string)) (parts : list string) :
  (checkSet set parts = true
   ↔ ∃ k, (1 ≤ k ≤ length parts)%nat ∧ suffix k parts ∈ set)
  ∧ (∀ k more, (1 ≤ k ≤ length parts)%nat → suffix k parts ∈ set →
       checkSet set (take k parts ++ more) = true)
  ∧ (∀ k more, (1 ≤ k ≤ length parts)%nat →
       hit m (suffix k parts) = true →
       (∀ j, (1 ≤ j < k)%nat → hit m (suffix j parts) = false) →
       m !! suffix k parts
       = Some (findSchoolNames_from m "" (take k parts ++ more)))
  ∧ ((∀ k, (1 ≤ k ≤ length parts)%nat → hit m (suffix k parts) = false) →
       findSchoolNames_from m "" parts = []).
Proof.
  split; [apply checkSet_suffix|]. split; [|split].
  - intros k more Hk Hin. apply checkSet_suffix. exists k.
    rewrite length_app, length_take. split; [lia|].
    by rewrite suffix_take_app by lia.
  - intros k more Hk Hhit Hno.
    rewrite <- (suffix_take_app parts more k k) by lia.
    apply findSchoolNames_from_first_hit.
    + rewrite length_app, length_take. lia.
    + by rewrite suffix_take_app by lia.
    + intros j Hj. rewrite suffix_take_app by lia. by apply Hno.
  - apply findSchoolNames_from_no_hit.
Qed.

(** C3 as stated fails on a label sequence with an empty first label, which
    the normaliser produces for a host with a trailing dot: the code tests
    [""], ["edu"], ["stanford.edu"], the walk of the specification tests
    [""], ["edu."], ["stanford.edu."]. *)
Lemma least_specific_suffix_wins_counterexample :
  domainParts "x@stanford.edu." = [""; "edu"; "stanford"]
  ∧ checkSet (tlds demo) [""; "edu"; "stanford"] = true
  ∧ checkSet_spec (tlds demo) [""; "edu"; "stanford"] = false.
Proof. repeat split; vm_compute; reflexivity. Qed.

(** ** C9 *)

(** C9.  When the walk reaches a suffix bound to the empty list,
    [findSchoolNames] goes on with the more specific suffixes; it returns
    [[]] exactly when no tested suffix is bound to a non-empty list. *)
Theorem empty_entry_skipped (DATA : SwotData) (e : string) :
  let m := institutions DATA in
  let parts := domainParts e in
  (∀ k, (1 ≤ k ≤ length parts)%nat →
     m !! suffix k parts = Some [] →
     (∀ j, (1 ≤ j < k)%nat → hit m (suffix j parts) = false) →
     findSchoolNames DATA e
     = findSchoolNames_from m (suffix k parts) (drop k parts))
  ∧ (findSchoolNames DATA e = []
     ↔ ∀ k, (1 ≤ k ≤ length parts)%nat → hit m (suffix k parts) = false).
Proof.
  intros m parts. split; [|apply findSchoolNames_from_no_hit].
  intros k Hk Hempty Hno. unfold findSchoolNames.
  apply (findSchoolNames_from_skip_top m parts k); [lia|].
  intros j Hj. destruct (decide (j = k)) as [->|Hne].
  - unfold hit. by rewrite Hempty.
  - apply Hno. lia.
Qed.

Lemma empty_entry_skipped_witness :
  institutions demo_empty_entry !! "edu" = Some []
  ∧ findSchoolNames demo_empty_entry "alice@cs.stanford.edu"
    = findSchoolNames_from (institutions demo_empty_entry) "edu" ["stanford"; "cs"]
  ∧ findSchoolNames demo_empty_entry "alice@cs.stanford.edu"
    = ["Stanford University"].
Proof.
  split; [vm_compute; reflexivity|]. split; [|vm_compute; reflexivity].
  apply (proj1 (empty_entry_skipped demo_empty_entry "alice@cs.stanford.edu")
           1%nat).
  - vm_compute. split; apply Nat.leb_le; reflexivity.
  - vm_compute; reflexivity.
  - intros j Hj. lia.
Defined.

(** ** The steps of [domainParts] *)

Lemma indexOf_find_after c s :
  match find_after c s with
  | None => indexOf c s = -1
  | Some r => 0 ≤ indexOf c s ∧ drop_chars (Z.to_nat (indexOf c s + 1)) s = r
  end.
Proof.
  induction s as [|d s IH]; simpl; [done|].
  destruct (Ascii.eqb d c); [done|].
  destruct (find_after c s) as [r|].
  - destruct IH as [Hi Hd]. destruct (Z.ltb_spec (indexOf c s) 0); [lia|].
    split; [lia|]. replace (Z.to_nat (indexOf c s + 1 + 1))
      with (S (Z.to_nat (indexOf c s + 1))) by lia. done.
  - by rewrite IH.
Qed.

Lemma substring_indexOf c s : substring (indexOf c s + 1) s = after_first c s.
Proof.
  unfold substring, after_first. pose proof (indexOf_find_after c s) as H.
  destruct (find_after c s) as [r|]; simpl.
  - destruct H as [Hi <-]. f_equal. lia.
  - by rewrite H.
Qed.

Lemma first_split c s : first (split c s) = before_first c s.
Proof.
  induction s as [|d s IH]; simpl; [done|].
  destruct (Ascii.eqb d c); [done|].
  destruct (split c s) as [|f fs] eqn:E; simpl in *; by rewrite <- IH.
Qed.

Lemma before_from_first c s : before_first c s +:+ from_first c s = s.
Proof.
  induction s as [|d s IH]; simpl; [done|].
  destruct (Ascii.eqb d c); simpl; [done|]. by rewrite IH.
Qed.

Lemma many_letters k s :
  (∀ c t, Char.between 97 122 c = true → k (String c t) = None) →
  RegExp.many (Char.between 97 122) k s = k (skip_letters s).
Proof.
  intros Hk. induction s as [|c s IH]; simpl; [done|].
  destruct (Char.between 97 122 c) eqn:Hc; [|done].
  rewrite IH. destruct (k (skip_letters s)) eqn:E; [done|]. by apply Hk.
Qed.

Lemma skip_letters_length s : (String.length (skip_letters s) ≤ String.length s)%nat.
Proof.
  induction s as [|c s IH]; simpl; [done|].
  destruct (Char.between 97 122 c); simpl; lia.
Qed.

Lemma skip_letters_cons c s :
  Char.between 97 122 c = true → skip_letters s ≠ String c s.
Proof.
  intros _ H. pose proof (skip_letters_length s) as Hl.
  rewrite H in Hl. simpl in Hl. lia.
Qed.

Lemma remove_anchored re s :
  RegExp.bol re = true →
  RegExp.remove re s = default s (RegExp.match_at re s).
Proof.
  intros Hbol. unfold RegExp.remove.
  destruct s; simpl; rewrite Hbol; by destruct (RegExp.match_at re _).
Qed.

(** Unfolding of the matcher on a pattern given in full, leaving the
    character tests folded. *)
Ltac re_unfold :=
  cbn [RegExp.match_at RegExp.exec RegExp.rep RegExp.cls RegExp.at_end
       RegExp.bol RegExp.body RegExp.eol].

Lemma remove_re_scheme s : RegExp.remove re_scheme s = strip_scheme s.
Proof.
  rewrite remove_anchored by done.
  unfold strip_scheme, re_scheme. re_unfold.
  destruct s as [|c s]; [done|]. simpl skip_letters.
  destruct (Char.between 97 122 c) eqn:Hc.
  - rewrite many_letters.
    2:{ intros d t Hd. re_unfold. unfold RegExp.chr.
        destruct (Ascii.eqb_spec ":" d) as [<-|]; done. }
    assert (Hne : String.eqb (skip_letters s) (String c s) = false).
    { apply String.eqb_neq. by apply skip_letters_cons. }
    rewrite Hne. simpl negb. rewrite andb_true_l. unfold RegExp.chr.
    destruct (skip_letters s) as [|c1 [|c2 [|c3 rest]]];
      re_unfold; cbn [startsWith drop_chars default]; try done.
    + by destruct (Ascii.eqb ":" c1).
    + destruct (Ascii.eqb ":" c1); [|done]. by destruct (Ascii.eqb "/" c2).
    + destruct (Ascii.eqb ":" c1); [|done]. destruct (Ascii.eqb "/" c2); [|done].
      by destruct (Ascii.eqb "/" c3).
  - by rewrite String.eqb_refl.
Qed.

Lemma match_re_userinfo s :
  RegExp.match_at re_userinfo s
  = (λ host, host +:+ from_first "/" s) <$> find_after_last "@" (before_first "/" s).
Proof.
  unfold re_userinfo. re_unfold. unfold RegExp.neg, RegExp.chr.
  induction s as [|c s IH]; [done|].
  cbn [RegExp.many before_first from_first]. rewrite (Ascii.eqb_sym c "/").
  destruct (Ascii.eqb "/" c) eqn:Hslash; cbn [negb].
  - re_unfold. apply Ascii.eqb_eq in Hslash as <-. done.
  - cbn [find_after_last]. rewrite IH.
    destruct (find_after_last "@" (before_first "/" s)) as [host|]; [done|].
    cbn [fmap option_fmap option_map]. rewrite (Ascii.eqb_sym c "@").
    destruct (Ascii.eqb "@" c); [|done].
    cbn [fmap option_fmap option_map]. by rewrite before_from_first.
Qed.

Lemma contains_before_first c s : contains c (before_first c s) = false.
Proof.
  induction s as [|d s IH]; simpl; [done|].
  destruct (Ascii.eqb d c) eqn:E; simpl; [done|]. by rewrite E.
Qed.

Lemma find_after_last_contains c d s r :
  find_after_last c s = Some r → contains d s = false → contains d r = false.
Proof.
  revert r. induction s as [|e s IH]; intros r; simpl; [done|].
  intros Hf [He Hs]%orb_false_elim.
  destruct (find_after_last c s) as [r'|]; [injection Hf as <-; eauto|].
  destruct (Ascii.eqb e c); by simplify_eq.
Qed.

Lemma before_first_app c host t :
  contains c host = false → before_first c t = "" →
  before_first c (host +:+ t) = host.
Proof.
  intros Hh Ht. induction host as [|d host IH]; simpl in *; [done|].
  apply orb_false_elim in Hh as [-> Hh]. by rewrite IH.
Qed.

Lemma before_first_from_first c s : before_first c (from_first c s) = "".
Proof.
  induction s as [|d s IH]; simpl; [done|].
  destruct (Ascii.eqb d c) eqn:E; [|done]. simpl. by rewrite E.
Qed.

Lemma before_first_without c s : contains c s = false → before_first c s = s.
Proof.
  induction s as [|d s IH]; simpl; [done|].
  intros [-> Hs]%orb_false_elim. by rewrite IH.
Qed.

Lemma host_after_userinfo s :
  first (split "/" (RegExp.remove re_userinfo s))
  = after_last "@" (before_first "/" s).
Proof.
  rewrite first_split, remove_anchored by done. rewrite match_re_userinfo.
  unfold after_last.
  destruct (find_after_last "@" (before_first "/" s)) as [host|] eqn:E; simpl.
  - apply before_first_app; [|apply before_first_from_first].
    eapply find_after_last_contains; [done|]. apply contains_before_first.
  - done.
Qed.

Lemma truthy_eqb s : truthy s = negb (String.eqb s "").
Proof. by destruct s. Qed.

(** [domainParts] step by step. *)
Lemma domainParts_by_steps input : domainParts input = domainParts_steps input.
Proof.
  unfold domainParts, domainParts_steps, labels_of.
  rewrite first_split, host_after_userinfo, remove_re_scheme, substring_indexOf.
  rewrite truthy_eqb. by destruct (String.eqb _ "").
Qed.

(** ** C2 *)

(** C2 (amended).  The normaliser trims and lower-cases; discards everything
    up to and including the first [@]; strips a leading [scheme://]; takes
    the substring before the first [/]; discards, within it, everything up
    to and including its final [@]; takes the substring before the first
    [:]; and returns no label for an empty host, the [.]-split labels in
    reversed order otherwise. *)
Theorem domainParts_normalises (input : string) :
  domainParts input
  = let raw := toLowerCase (trim input) in
    let host :=
      before_first ":"
        (after_last "@"
           (before_first "/" (strip_scheme (after_first "@" raw)))) in
    if String.eqb host "" then [] else rev (split "." host).
Proof.
  unfold domainParts.
  rewrite substring_indexOf, remove_re_scheme, host_after_userinfo.
  rewrite first_split, truthy_eqb.
  by destruct (String.eqb _ "").
Qed.

(** C2 as stated fails when an [@] follows a [/]: the code cuts at the first
    [@] and at the [/], the specification at the final [@]. *)
Lemma domainParts_normalises_counterexample :
  domainParts "a@mit.edu/x@y" = ["edu"; "mit"]
  ∧ domainParts_spec "a@mit.edu/x@y" = ["y"]
  ∧ domainParts "a@mit.edu/x@y" ≠ domainParts_spec "a@mit.edu/x@y".
Proof. repeat split; [vm_compute; reflexivity..|]. by vm_compute. Qed.

(** ** Hosts that need no normalisation *)

Lemma all_chars_impl (p q : ascii → bool) s :
  (∀ c, p c = true → q c = true) → all_chars p s = true → all_chars q s = true.
Proof.
  intros Hpq. induction s as [|c s IH]; simpl; [done|].
  intros [Hc Hs]%andb_prop. by rewrite (Hpq c Hc), IH.
Qed.

Lemma all_chars_not_contains (p : ascii → bool) c s :
  p c = false → all_chars p s = true → contains c s = false.
Proof.
  intros Hc. induction s as [|d s IH]; simpl; [done|].
  intros [Hd Hs]%andb_prop. rewrite IH by done.
  destruct (Ascii.eqb_spec d c) as [->|]; [congruence|done].
Qed.

Lemma trimStart_id s :
  all_chars (RegExp.neg Char.isWhiteSpace) s = true → trimStart s = s.
Proof.
  destruct s as [|c s]; simpl; [done|]. unfold RegExp.neg at 1.
  intros [Hc _]%andb_prop. by destruct (Char.isWhiteSpace c).
Qed.

Lemma trimEnd_id s :
  all_chars (RegExp.neg Char.isWhiteSpace) s = true → trimEnd s = s.
Proof.
  induction s as [|c s IH]; simpl; [done|]. unfold RegExp.neg at 1.
  intros [Hc Hs]%andb_prop. rewrite IH by done.
  destruct s; [|done]. by destruct (Char.isWhiteSpace c).
Qed.

Lemma trim_id s :
  all_chars (RegExp.neg Char.isWhiteSpace) s = true → trim s = s.
Proof. intros H. unfold trim. by rewrite trimStart_id, trimEnd_id. Qed.

Lemma toLowerCase_id s :
  all_chars (λ c, Ascii.eqb (Char.toLowerCase c) c) s = true → toLowerCase s = s.
Proof.
  induction s as [|c s IH]; simpl; [done|].
  intros [->%Ascii.eqb_eq Hs]%andb_prop. by rewrite IH.
Qed.

Lemma find_after_without c s : contains c s = false → find_after c s = None.
Proof.
  induction s as [|d s IH]; simpl; [done|].
  intros [-> Hs]%orb_false_elim. by apply IH.
Qed.

Lemma find_after_last_without c s :
  contains c s = false → find_after_last c s = None.
Proof.
  induction s as [|d s IH]; simpl; [done|].
  intros [-> Hs]%orb_false_elim. by rewrite IH.
Qed.

Lemma contains_skip_letters c s :
  contains c s = false → contains c (skip_letters s) = false.
Proof.
  induction s as [|d s IH]; simpl; [done|].
  intros [Hd Hs]%orb_false_elim.
  destruct (Char.between 97 122 d); simpl; [auto|]. by rewrite Hd, Hs.
Qed.

Lemma strip_scheme_without s : contains ":" s = false → strip_scheme s = s.
Proof.
  intros H%contains_skip_letters. unfold strip_scheme.
  destruct (skip_letters s) as [|c r]; simpl in *.
  - by rewrite andb_false_r.
  - apply orb_false_elim in H as [Hc _]. rewrite (Ascii.eqb_sym ":" c), Hc.
    by rewrite andb_false_r.
Qed.

Lemma host_char_facts c :
  host_char c = true →
  Char.isWhiteSpace c = false ∧ Ascii.eqb c "@" = false
  ∧ Ascii.eqb c "/" = false ∧ Ascii.eqb c ":" = false
  ∧ Ascii.eqb (Char.toLowerCase c) c = true.
Proof.
  unfold host_char. intros H. repeat apply andb_prop in H as [H ?].
  repeat match goal with H : negb _ = true |- _ => apply negb_true_iff in H end.
  done.
Qed.

Lemma host_no_space s :
  all_chars host_char s = true →
  all_chars (RegExp.neg Char.isWhiteSpace) s = true.
Proof.
  apply all_chars_impl. intros c Hc%host_char_facts.
  unfold RegExp.neg. by destruct Hc as (-> & _).
Qed.

Lemma host_lower s :
  all_chars host_char s = true →
  all_chars (λ c, Ascii.eqb (Char.toLowerCase c) c) s = true.
Proof.
  apply all_chars_impl. by intros c (_ & _ & _ & _ & ?)%host_char_facts.
Qed.

(** The steps of the normaliser leave a host of [host_char]s as it is. *)
Lemma host_steps_id s :
  all_chars host_char s = true →
  toLowerCase (trim s) = s
  ∧ after_first "@" s = s
  ∧ before_first ":" (after_last "@" (before_first "/" (strip_scheme s))) = s.
Proof.
  intros H.
  assert (Hno : ∀ c, host_char c = false → contains c s = false).
  { intros c Hc. by eapply all_chars_not_contains. }
  split; [by rewrite trim_id, toLowerCase_id by auto using host_no_space, host_lower|].
  unfold after_first, after_last.
  rewrite find_after_without by (by apply Hno). split; [done|].
  rewrite strip_scheme_without by (by apply Hno).
  rewrite (before_first_without "/") by (by apply Hno).
  rewrite find_after_last_without by (by apply Hno). simpl.
  by rewrite before_first_without by (by apply Hno).
Qed.

Lemma domainParts_host s :
  all_chars host_char s = true → domainParts s = labels_of s.
Proof.
  intros (Hraw & Hat & Hhost)%host_steps_id. rewrite domainParts_by_steps.
  unfold domainParts_steps. by rewrite Hraw, Hat, Hhost.
Qed.

Lemma domainParts_user_at s :
  all_chars host_char s = true → domainParts ("user@" +:+ s) = labels_of s.
Proof.
  intros H. pose proof (host_steps_id s H) as (_ & _ & Hhost).
  rewrite domainParts_by_steps. unfold domainParts_steps.
  assert (Hraw : toLowerCase (trim ("user@" +:+ s)) = "user@" +:+ s).
  { rewrite trim_id, toLowerCase_id; [done| |]; rewrite all_chars_app.
    - by rewrite (host_lower s H).
    - by rewrite (host_no_space s H). }
  rewrite Hraw. change (after_first "@" ("user@" +:+ s)) with s.
  by rewrite Hhost.
Qed.

(** ** Canonical keys *)

Lemma split_without c s : contains c s = false → split c s = [s].
Proof.
  induction s as [|d s IH]; simpl; [done|].
  intros [-> Hs]%orb_false_elim. by rewrite IH.
Qed.

Lemma split_app_sep c l rest :
  contains c l = false → split c (l +:+ String c rest) = l :: split c rest.
Proof.
  induction l as [|d l IH]; simpl.
  - intros _. by rewrite Ascii.eqb_refl.
  - intros [-> Hl]%orb_false_elim. by rewrite IH.
Qed.

Lemma label_no_dot l : all_chars label_char l = true → contains "." l = false.
Proof.
  apply all_chars_not_contains. unfold label_char.
  by rewrite Ascii.eqb_refl, andb_false_r.
Qed.

Lemma split_join (labels : list string) :
  labels ≠ [] → Forall is_label labels → split "." (join "." labels) = labels.
Proof.
  intros Hne Hall. induction Hall as [|l ls [_ Hl] Hls IH]; [done|].
  destruct ls as [|l' ls]; simpl.
  - by apply split_without, label_no_dot.
  - rewrite split_app_sep by (by apply label_no_dot). f_equal. by apply IH.
Qed.

Lemma all_chars_join (p : ascii → bool) (labels : list string) :
  p "."%char = true → Forall (λ l, all_chars p l = true) labels →
  all_chars p (join "." labels) = true.
Proof.
  intros Hdot Hall. induction Hall as [|l ls Hl Hls IH]; [done|].
  destruct ls as [|l' ls]; [done|].
  change (join "." (l :: l' :: ls)) with (l +:+ String "." (join "." (l' :: ls))).
  rewrite all_chars_app, Hl. cbn [all_chars andb]. by rewrite Hdot, IH.
Qed.

Lemma canonical_key_host d : canonical_key d → all_chars host_char d = true.
Proof.
  intros (labels & _ & Hall & ->). apply all_chars_join; [by vm_compute|].
  eapply Forall_impl; [done|]. intros l [_ Hl]. simpl.
  eapply all_chars_impl; [|done]. unfold label_char. by intros c [? _]%andb_prop.
Qed.

Lemma join_nonempty (l : string) (ls : list string) :
  l ≠ "" → join "." (l :: ls) ≠ "".
Proof. destruct l; [done|]. by destruct ls. Qed.

Lemma drop_empty_label (l : string) (ls : list string) :
  l ≠ "" → drop_empty (l :: ls) = l :: ls.
Proof. by destruct l. Qed.

(** The labels of a canonical key, and the name they are walked back to. *)
Lemma canonical_key_labels d :
  canonical_key d →
  labels_of d ≠ [] ∧ name_of (labels_of d) = d.
Proof.
  intros (labels & Hne & Hall & ->). unfold labels_of.
  destruct labels as [|l ls]; [done|].
  assert (Hl : l ≠ "") by (by inversion Hall as [|? ? [? _]]).
  apply join_nonempty with (ls := ls) in Hl as Hj.
  apply String.eqb_neq in Hj. rewrite Hj. rewrite split_join by done.
  split.
  - intros Hrev%(f_equal (@length string)). rewrite length_rev in Hrev. done.
  - unfold name_of. destruct (rev (l :: ls)) as [|t rl] eqn:E.
    + apply (f_equal (@length string)) in E. rewrite length_rev in E. done.
    + assert (Ht : is_label t).
      { eapply (proj1 (Forall_forall _ _) Hall). apply list_elem_of_In, in_rev.
        rewrite E. by left. }
      rewrite drop_empty_label by apply Ht. by rewrite <- E, rev_involutive.
Qed.

Lemma checkSet_whole set (parts : list string) :
  parts ≠ [] → name_of parts ∈ set → checkSet set parts = true.
Proof.
  intros Hne Hin. apply checkSet_suffix. exists (length parts).
  split; [destruct parts; simpl; [done|lia]|].
  unfold suffix. by rewrite firstn_all.
Qed.

(** ** C5 *)

(** C5.  For every dataset and every canonical domain key [d] of its
    stoplist, [isStoplisted(d)] and [isStoplisted("user@" + d)] are [true]. *)
Theorem stoplist_key_is_stoplisted (DATA : SwotData) (d : string) :
  d ∈ stoplist DATA → canonical_key d →
  isStoplisted DATA d = true ∧ isStoplisted DATA ("user@" +:+ d) = true.
Proof.
  intros Hin Hkey. pose proof (canonical_key_host d Hkey) as Hhost.
  destruct (canonical_key_labels d Hkey) as [Hne Hname].
  unfold isStoplisted. rewrite domainParts_host, domainParts_user_at by done.
  split; apply checkSet_whole; by rewrite ?Hname.
Qed.

Lemma stoplist_key_is_stoplisted_witness :
  "america.edu" ∈ stoplist demo
  ∧ canonical_key "america.edu"
  ∧ isStoplisted demo "america.edu" = true
  ∧ isStoplisted demo "user@america.edu" = true.
Proof.
  assert (Hin : "america.edu" ∈ stoplist demo).
  { unfold demo. cbn [stoplist]. by apply elem_of_singleton_2. }
  assert (Hkey : canonical_key "america.edu").
  { exists ["america"; "edu"]. split; [done|]. split; [|done].
    repeat constructor; by vm_compute. }
  split; [done|]. split; [done|].
  exact (stoplist_key_is_stoplisted demo "america.edu" Hin Hkey).
Defined.

(** ** White space around the input *)

Lemma trimStart_space_app l s :
  all_chars Char.isWhiteSpace l = true → trimStart (l +:+ s) = trimStart s.
Proof.
  induction l as [|c l IH]; simpl; [done|].
  intros [-> Hl]%andb_prop. by apply IH.
Qed.

Lemma trimEnd_space r : all_chars Char.isWhiteSpace r = true → trimEnd r = "".
Proof.
  induction r as [|c r IH]; simpl; [done|].
  intros [-> Hr]%andb_prop. by rewrite IH.
Qed.

Lemma trimEnd_app_space s r :
  all_chars Char.isWhiteSpace r = true → trimEnd (s +:+ r) = trimEnd s.
Proof.
  intros Hr. induction s as [|c s IH]; simpl.
  - by apply trimEnd_space.
  - by rewrite IH.
Qed.

Lemma trimStart_app_space e r :
  all_chars Char.isWhiteSpace r = true →
  ∃ r', all_chars Char.isWhiteSpace r' = true
        ∧ trimStart (e +:+ r) = trimStart e +:+ r'.
Proof.
  intros Hr. induction e as [|c e IH]; simpl.
  - exists "". split; [done|].
    clear -Hr. induction r as [|c r IH]; simpl in *; [done|].
    apply andb_prop in Hr as [-> Hr]. by apply IH.
  - destruct (Char.isWhiteSpace c); [done|]. by exists r.
Qed.

Lemma trim_padded l e r :
  all_chars Char.isWhiteSpace l = true → all_chars Char.isWhiteSpace r = true →
  trim (l +:+ e +:+ r) = trim e.
Proof.
  intros Hl Hr. unfold trim. rewrite trimStart_space_app by done.
  destruct (trimStart_app_space e r Hr) as (r' & Hr' & ->).
  by apply trimEnd_app_space.
Qed.

Lemma domainParts_padded l e r :
  all_chars Char.isWhiteSpace l = true → all_chars Char.isWhiteSpace r = true →
  domainParts (l +:+ e +:+ r) = domainParts e.
Proof. intros Hl Hr. unfold domainParts. by rewrite trim_padded. Qed.

Lemma not_space_at_no_space s :
  all_chars not_space_at s = true →
  all_chars (RegExp.neg Char.isWhiteSpace) s = true.
Proof.
  apply all_chars_impl. intros c. unfold not_space_at, RegExp.neg, RegExp.alt.
  by destruct (Char.isWhiteSpace c).
Qed.

Lemma email_shape_no_space s :
  email_shape s → all_chars (RegExp.neg Char.isWhiteSpace) s = true.
Proof.
  intros (loc & x & y & -> & [_ Hloc] & [_ Hx] & [_ Hy]).
  rewrite all_chars_app. cbn [String.append all_chars].
  rewrite all_chars_app. cbn [String.append all_chars].
  rewrite !not_space_at_no_space by done. by vm_compute.
Qed.

Lemma padded_has_space l e r :
  all_chars Char.isWhiteSpace l = true → all_chars Char.isWhiteSpace r = true →
  l +:+ r ≠ "" →
  all_chars (RegExp.neg Char.isWhiteSpace) (l +:+ e +:+ r) = false.
Proof.
  intros Hl Hr Hne. rewrite !all_chars_app.
  destruct l as [|c l]; simpl in *.
  - destruct r as [|c r]; [done|]. simpl in *.
    apply andb_prop in Hr as [Hc _]. unfold RegExp.neg at 2. rewrite Hc.
    by rewrite andb_false_r.
  - apply andb_prop in Hl as [Hc _]. unfold RegExp.neg at 1. by rewrite Hc.
Qed.

(** ** C10 *)

(** C10.  White space before or after an input makes [isAcademic] answer
    [false], whatever the input, while [isUnderTLD], [isStoplisted] and
    [findSchoolNames], which trim first, answer as they do without it. *)
Theorem untrimmed_input_rejected (DATA : SwotData) (l e r : string) :
  all_chars Char.isWhiteSpace l = true →
  all_chars Char.isWhiteSpace r = true →
  l +:+ r ≠ "" →
  isAcademic DATA (l +:+ e +:+ r) = false
  ∧ isUnderTLD DATA (l +:+ e +:+ r) = isUnderTLD DATA e
  ∧ isStoplisted DATA (l +:+ e +:+ r) = isStoplisted DATA e
  ∧ findSchoolNames DATA (l +:+ e +:+ r) = findSchoolNames DATA e.
Proof.
  intros Hl Hr Hne.
  unfold isAcademic, isUnderTLD, isStoplisted, findSchoolNames.
  rewrite domainParts_padded by done. split; [|done].
  destruct (RegExp.test re_email (l +:+ e +:+ r)) eqn:Htest; [|done].
  apply test_re_email, email_shape_no_space in Htest.
  by rewrite padded_has_space in Htest.
Qed.

Lemma untrimmed_input_rejected_witness :
  (all_chars Char.isWhiteSpace " " = true ∧ " " +:+ " " ≠ "")
  ∧ isAcademic demo "alice@cs.stanford.edu" = true
  ∧ isAcademic demo " alice@cs.stanford.edu " = false
  ∧ isUnderTLD demo " alice@cs.stanford.edu " = isUnderTLD demo "alice@cs.stanford.edu"
  ∧ isStoplisted demo " alice@cs.stanford.edu " = isStoplisted demo "alice@cs.stanford.edu"
  ∧ findSchoolNames demo " alice@cs.stanford.edu "
    = findSchoolNames demo "alice@cs.stanford.edu".
Proof.
  split; [split; [reflexivity|discriminate]|].
  split; [vm_compute; reflexivity|].
  apply (untrimmed_input_rejected demo " " "alice@cs.stanford.edu" " ");
    [reflexivity|reflexivity|discriminate].
Defined.

(** ** The dataset build *)

Lemma exec_once_length re s r :
  Forall (λ a, RegExp.rep a = RegExp.Once) re →
  RegExp.exec re (RegExp.at_end true) s = Some r →
  String.length s = length re.
Proof.
  intros Hall. revert s. induction Hall as [|a re Ha Hre IH]; intros s.
  - cbn [RegExp.exec RegExp.at_end]. by destruct s.
  - cbn [RegExp.exec]. rewrite Ha. destruct s as [|c s]; [done|].
    destruct (RegExp.cls a c); [|done]. intros He%IH. simpl. by rewrite He.
Qed.

Lemma length_append s t :
  String.length (s +:+ t) = (String.length s + String.length t)%nat.
Proof. induction s; simpl; [done|]. by rewrite IHs. Qed.

Lemma search_re_txt base :
  RegExp.search re_txt (base +:+ ".txt") = Some (base, "").
Proof.
  induction base as [|c base IH]; [by vm_compute|].
  cbn [String.append RegExp.search].
  destruct (RegExp.match_at re_txt (String c (base +:+ ".txt"))) as [r|] eqn:E.
  - apply exec_once_length in E; [|by repeat constructor].
    simpl in E. rewrite length_append in E. simpl in E. lia.
  - cbn [RegExp.bol re_txt]. by rewrite IH.
Qed.

Lemma remove_re_txt base : RegExp.remove re_txt (base +:+ ".txt") = base.
Proof.
  unfold RegExp.remove. rewrite search_re_txt. apply append_nil_r.
Qed.

Lemma relative_parts_below (root rel : path) :
  rel ≠ [] → relative_parts root (root ++ rel) = rel.
Proof.
  intros Hne. unfold relative_parts. rewrite drop_app_length. by destruct rel.
Qed.

Lemma basename_snoc (dir : path) (name : string) : basename (dir ++ [name]) = name.
Proof. apply last_last. Qed.

Lemma filePathToDomain_txt domainToASCII (root dirs : path) (base : string) :
  filePathToDomain domainToASCII (root ++ dirs ++ [base +:+ ".txt"]) root
  = domainToASCII (toLowerCase (join "." (base :: rev dirs))).
Proof.
  unfold filePathToDomain. rewrite relative_parts_below by (by destruct dirs).
  rewrite last_last, removelast_last, remove_re_txt.
  by rewrite rev_app_distr.
Qed.

Section BuilderFacts.

Variable domainToASCII : string → string.
Variable libDomains : path.

(** Every iteration either leaves the map as it is or binds a key that was
    free to a non-empty list. *)
Lemma visit_cases (inst : gmap string (list string)) (entry : path * option string) :
  visit domainToASCII libDomains inst entry = inst
  ∨ ∃ key names, inst !! key = None ∧ names ≠ []
                 ∧ visit domainToASCII libDomains inst entry = <[ key := names ]> inst.
Proof.
  destruct entry as [file read]. unfold visit.
  repeat match goal with |- context [if ?b then inst else _] =>
    destruct b; [by left|] end.
  destruct read as [content|]; [|by left].
  destruct (parseSchoolFile content) as [|n names] eqn:Hparse; [by left|].
  cbn [length Z.of_nat Z.ltb Z.compare andb].
  case_bool_decide as Hfree; [by left|]. right.
  exists (filePathToDomain domainToASCII file libDomains), (n :: names).
  split; [|done]. by apply eq_None_not_Some.
Qed.

Lemma visit_empty_parse inst file content :
  parseSchoolFile content = [] →
  visit domainToASCII libDomains inst (file, Some content) = inst.
Proof.
  intros Hparse. unfold visit. rewrite Hparse.
  by repeat match goal with |- context [if ?b then inst else _] =>
    destruct b; [done|] end.
Qed.

Lemma visit_key_present inst file read :
  is_Some (inst !! filePathToDomain domainToASCII file libDomains) →
  visit domainToASCII libDomains inst (file, read) = inst.
Proof.
  intros Hkey. unfold visit.
  repeat match goal with |- context [if ?b then inst else _] =>
    destruct b; [done|] end.
  destruct read as [content|]; [|done].
  rewrite bool_decide_eq_true_2 by done. by rewrite andb_false_r.
Qed.

Lemma visit_keeps inst entry key names :
  inst !! key = Some names →
  visit domainToASCII libDomains inst entry !! key = Some names.
Proof.
  intros Hkey. destruct (visit_cases inst entry) as [->|(k & v & Hk & _ & ->)];
    [done|].
  rewrite lookup_insert_ne; [done|]. congruence.
Qed.

Lemma foldl_visit_keeps files inst key names :
  inst !! key = Some names →
  foldl (visit domainToASCII libDomains) inst files !! key = Some names.
Proof.
  revert inst. induction files as [|entry files IH]; intros inst Hkey; [done|].
  simpl. by apply IH, visit_keeps.
Qed.

Lemma visit_nonempty inst entry :
  (∀ key names, inst !! key = Some names → names ≠ []) →
  ∀ key names, visit domainToASCII libDomains inst entry !! key = Some names → names ≠ [].
Proof.
  intros Hinv key names.
  destruct (visit_cases inst entry) as [->|(k & v & Hk & Hv & ->)]; [eauto|].
  destruct (decide (k = key)) as [->|Hne].
  - rewrite lookup_insert_eq. by intros [= <-].
  - rewrite lookup_insert_ne by done. eauto.
Qed.

Lemma foldl_visit_nonempty files inst :
  (∀ key names, inst !! key = Some names → names ≠ []) →
  ∀ key names, foldl (visit domainToASCII libDomains) inst files !! key = Some names → names ≠ [].
Proof.
  revert inst. induction files as [|entry files IH]; intros inst Hinv; [done|].
  simpl. by apply IH, visit_nonempty.
Qed.

Lemma readSwot_ok listing DATA :
  readSwot domainToASCII libDomains listing = Ok DATA →
  ∃ files, walk libDomains listing = Some files
           ∧ institutions DATA = foldl (visit domainToASCII libDomains) ∅ files.
Proof.
  unfold readSwot. destruct listing as [entries|]; [|done].
  destruct (readFile entries "stoplist.txt"); [|done].
  destruct (readFile entries "tlds.txt"); [|done].
  destruct (walk libDomains (Some entries)) as [files|]; [|done].
  intros [= <-]. by exists files.
Qed.

End BuilderFacts.

(** ** C7 *)

(** C7.  Building from the tree whose one institution file is
    [edu/stanford.txt] with content ["Stanford University"] gives the
    institution map with the single entry
    ["stanford.edu" -> ["Stanford University"]]; the key of a file is its
    relative path with [.txt] stripped from the last segment, the segments
    reversed and dot-joined, lower-cased and ASCII-normalised. *)
Theorem build_stanford_entry
    (domainToASCII : string → string) (libDomains : path)
    (stoplistContent tldsContent : string) :
  domainToASCII "stanford.edu" = "stanford.edu" →
  readSwot domainToASCII libDomains
    (Some (stanford_tree stoplistContent tldsContent))
  = Ok {| institutions := {[ "stanford.edu" := ["Stanford University"] ]};
          stoplist := control_list stoplistContent;
          tlds := control_list tldsContent |}
  ∧ ∀ (dirs : path) (base : string),
      filePathToDomain domainToASCII (libDomains ++ dirs ++ [base +:+ ".txt"])
        libDomains
      = domainToASCII (toLowerCase (join "." (base :: rev dirs))).
Proof.
  intros Hascii. split; [|intros; apply filePathToDomain_txt].
  unfold readSwot.
  change (readFile _ "stoplist.txt") with (Some stoplistContent).
  change (readFile _ "tlds.txt") with (Some tldsContent).
  change (walk libDomains _)
    with (Some [ (libDomains ++ ["stoplist.txt"], Some stoplistContent);
                 (libDomains ++ ["tlds.txt"], Some tldsContent);
                 ((libDomains ++ ["edu"]) ++ ["stanford.txt"],
                  Some "Stanford University") ]).
  do 2 f_equal. cbn [foldl]. unfold visit at 3. rewrite basename_snoc.
  change (endsWith ".txt" "stoplist.txt") with true.
  change (String.eqb "stoplist.txt" "stoplist.txt") with true. cbn [negb].
  unfold visit at 2. rewrite basename_snoc.
  change (endsWith ".txt" "tlds.txt") with true.
  change (String.eqb "tlds.txt" "stoplist.txt") with false.
  change (String.eqb "tlds.txt" "tlds.txt") with true. cbn [negb].
  unfold visit. rewrite basename_snoc.
  change (endsWith ".txt" "stanford.txt") with true.
  change (String.eqb "stanford.txt" "stoplist.txt") with false.
  change (String.eqb "stanford.txt" "tlds.txt") with false.
  change (String.eqb "stanford.txt" "abused.txt") with false. cbn [negb].
  rewrite <- app_assoc.
  assert (Hkey : filePathToDomain domainToASCII
                   (libDomains ++ ["edu"] ++ ["stanford.txt"]) libDomains
                 = domainToASCII "stanford.edu")
    by exact (filePathToDomain_txt domainToASCII libDomains ["edu"] "stanford").
  rewrite Hkey, Hascii.
  change (parseSchoolFile "Stanford University") with ["Stanford University"].
  rewrite lookup_empty. rewrite bool_decide_eq_false_2 by (by intros [? ?]).
  cbn [length Z.of_nat Z.ltb Z.compare andb negb]. by rewrite insert_empty.
Qed.

Lemma build_stanford_entry_witness :
  readSwot (λ d, d) ["swot"; "lib"; "domains"]
    (Some (stanford_tree "america.edu" "edu"))
  = Ok {| institutions := {[ "stanford.edu" := ["Stanford University"] ]};
          stoplist := control_list "america.edu";
          tlds := control_list "edu" |}.
Proof.
  apply (build_stanford_entry (λ d, d) ["swot"; "lib"; "domains"]
           "america.edu" "edu").
  reflexivity.
Defined.

(** ** C8 *)

(** C8.  After a build that succeeds every value of the institution map is a
    non-empty list.  The map is the result of visiting the walked files in
    order; a file whose parsed list is empty leaves the map as it is, so does
    a file whose key is already bound, and a key once bound keeps its value
    to the end: the first file seen for a key wins. *)
Theorem institution_values_nonempty
    (domainToASCII : string → string) (libDomains : path)
    (listing : option (list dirent)) (DATA : SwotData) :
  readSwot domainToASCII libDomains listing = Ok DATA →
  (∀ key names, institutions DATA !! key = Some names → names ≠ [])
  ∧ ∃ files,
      walk libDomains listing = Some files
      ∧ institutions DATA = foldl (visit domainToASCII libDomains) ∅ files
      ∧ ∀ pre file read post,
          files = pre ++ (file, read) :: post →
          let before := foldl (visit domainToASCII libDomains) ∅ pre in
          let after := visit domainToASCII libDomains before (file, read) in
          (∀ content, read = Some content → parseSchoolFile content = [] →
             after = before)
          ∧ (is_Some (before !! filePathToDomain domainToASCII file libDomains) →
             after = before)
          ∧ (∀ key names, before !! key = Some names →
               institutions DATA !! key = Some names).
Proof.
  intros (files & Hwalk & Hinst)%readSwot_ok. split.
  - rewrite Hinst. apply foldl_visit_nonempty. intros key names.
    by rewrite lookup_empty.
  - exists files. split; [done|]. split; [done|].
    intros pre file read post -> before after. split; [|split].
    + intros content -> Hparse. by apply visit_empty_parse.
    + apply visit_key_present.
    + intros key names Hkey. rewrite Hinst, foldl_app.
      by apply foldl_visit_keeps.
Qed.

Lemma institution_values_nonempty_witness :
  readSwot (λ d, d) ["swot"; "lib"; "domains"] (Some merge_tree) = Ok merge_data
  ∧ ∀ key names, institutions merge_data !! key = Some names → names ≠ [].
Proof.
  assert (Hrun : readSwot (λ d, d) ["swot"; "lib"; "domains"] (Some merge_tree)
                 = Ok merge_data) by (vm_compute; reflexivity).
  split; [exact Hrun|].
  exact (proj1 (institution_values_nonempty (λ d, d) ["swot"; "lib"; "domains"]
                  (Some merge_tree) merge_data Hrun)).
Defined.

(** * Further properties of the runtime engine *)

(** ** Letter case *)

Lemma lower_char_idem c :
  Char.toLowerCase (Char.toLowerCase c) = Char.toLowerCase c.
Proof. destruct c as [[] [] [] [] [] [] [] []]; reflexivity. Qed.

Lemma lower_char_space c :
  Char.isWhiteSpace (Char.toLowerCase c) = Char.isWhiteSpace c.
Proof. destruct c as [[] [] [] [] [] [] [] []]; reflexivity. Qed.

Lemma lower_char_at c : Ascii.eqb (Char.toLowerCase c) "@" = Ascii.eqb c "@".
Proof. destruct c as [[] [] [] [] [] [] [] []]; reflexivity. Qed.

Lemma lower_char_dot c : Ascii.eqb (Char.toLowerCase c) "." = Ascii.eqb c ".".
Proof. destruct c as [[] [] [] [] [] [] [] []]; reflexivity. Qed.

Lemma toLowerCase_idem s : toLowerCase (toLowerCase s) = toLowerCase s.
Proof. induction s as [|c s IH]; simpl; [done|]. by rewrite lower_char_idem, IH. Qed.

Lemma toLowerCase_app s t : toLowerCase (s +:+ t) = toLowerCase s +:+ toLowerCase t.
Proof. induction s as [|c s IH]; simpl; [done|]. by rewrite IH. Qed.

Lemma toLowerCase_nil s : toLowerCase s = "" → s = "".
Proof. by destruct s. Qed.

Lemma trimStart_lower s : trimStart (toLowerCase s) = toLowerCase (trimStart s).
Proof.
  induction s as [|c s IH]; simpl; [done|]. rewrite lower_char_space.
  by destruct (Char.isWhiteSpace c).
Qed.

Lemma trimEnd_lower s : trimEnd (toLowerCase s) = toLowerCase (trimEnd s).
Proof.
  induction s as [|c s IH]; simpl; [done|]. rewrite IH, lower_char_space.
  destruct (trimEnd s); simpl; [|done]. by destruct (Char.isWhiteSpace c).
Qed.

Lemma trim_lower s : trim (toLowerCase s) = toLowerCase (trim s).
Proof. unfold trim. by rewrite trimStart_lower, trimEnd_lower. Qed.

Lemma domainParts_lower e : domainParts (toLowerCase e) = domainParts e.
Proof. unfold domainParts. by rewrite trim_lower, toLowerCase_idem. Qed.

Lemma toLowerCase_app_inv s u v :
  toLowerCase s = u +:+ v →
  ∃ u' v', s = u' +:+ v' ∧ toLowerCase u' = u ∧ toLowerCase v' = v.
Proof.
  revert s. induction u as [|c u IH]; intros s; simpl.
  - intros <-. by exists "", s.
  - destruct s as [|d s]; simpl; [done|]. intros [= <- Hs].
    destruct (IH s Hs) as (u' & v' & -> & <- & <-).
    by exists (String d u'), v'.
Qed.

Lemma all_chars_lower (p : ascii → bool) s :
  (∀ c, p (Char.toLowerCase c) = p c) →
  all_chars p (toLowerCase s) = all_chars p s.
Proof. intros Hp. induction s as [|c s IH]; simpl; [done|]. by rewrite Hp, IH. Qed.

Lemma MatchesAtom_lower a u :
  case_blind a → MatchesAtom a (toLowerCase u) ↔ MatchesAtom a u.
Proof.
  intros Ha. unfold MatchesAtom.
  assert (Hone : (∃ c, toLowerCase u = String c "" ∧ RegExp.cls a c = true)
                 ↔ ∃ c, u = String c "" ∧ RegExp.cls a c = true).
  { split.
    - intros (c & Hu & Hc). destruct u as [|d [|? ?]]; try done.
      simpl in Hu. injection Hu as <-. exists d. by rewrite <- Ha.
    - intros (c & -> & Hc). exists (Char.toLowerCase c). by rewrite Ha. }
  assert (Hnil : toLowerCase u = "" ↔ u = "") by (by destruct u).
  destruct (RegExp.rep a); rewrite ?all_chars_lower by done; tauto.
Qed.

Lemma Matches_nil_inv s : Matches [] s → s = "".
Proof. by inversion 1. Qed.

Lemma Matches_cons_inv a re s :
  Matches (a :: re) s → ∃ u v, s = u +:+ v ∧ MatchesAtom a u ∧ Matches re v.
Proof. inversion 1; subst; eauto. Qed.

Lemma Matches_lower re s :
  Forall case_blind re → Matches re (toLowerCase s) ↔ Matches re s.
Proof.
  intros Hre. revert s. induction Hre as [|a re Ha Hre IH]; intros s.
  - split; intros H%Matches_nil_inv.
    + apply toLowerCase_nil in H as ->. constructor.
    + subst. constructor.
  - split; intros (u & v & Hs & Hu & Hv)%Matches_cons_inv.
    + apply toLowerCase_app_inv in Hs as (u' & v' & -> & <- & <-).
      constructor; [by apply MatchesAtom_lower|by apply IH].
    + subst. rewrite toLowerCase_app.
      constructor; [by apply MatchesAtom_lower|by apply IH].
Qed.

Lemma test_re_email_lower e :
  RegExp.test re_email (toLowerCase e) = RegExp.test re_email e.
Proof.
  apply eq_true_iff_eq. unfold re_email. rewrite !test_anchored.
  apply Matches_lower.
  assert (Hrun : ∀ c, not_space_at (Char.toLowerCase c) = not_space_at c).
  { intros c. unfold not_space_at, RegExp.neg, RegExp.alt, RegExp.chr.
    by rewrite lower_char_space, !(Ascii.eqb_sym "@"), lower_char_at. }
  repeat constructor; intros c; cbn [RegExp.cls]; unfold RegExp.chr;
    rewrite ?Hrun, ?(Ascii.eqb_sym "@"), ?(Ascii.eqb_sym "."),
      ?lower_char_at, ?lower_char_dot; done.
Qed.

(** X1.  The four queries do not tell an input from its lower-case form: letter
    case in the address, the host or the URL never changes an answer. *)
Theorem queries_ignore_case (DATA : SwotData) (e : string) :
  isAcademic DATA (toLowerCase e) = isAcademic DATA e
  ∧ isUnderTLD DATA (toLowerCase e) = isUnderTLD DATA e
  ∧ isStoplisted DATA (toLowerCase e) = isStoplisted DATA e
  ∧ findSchoolNames DATA (toLowerCase e) = findSchoolNames DATA e.
Proof.
  unfold isAcademic, isUnderTLD, isStoplisted, findSchoolNames.
  by rewrite domainParts_lower, test_re_email_lower.
Qed.

(** ** What precedes the first [@] *)

Lemma trimStart_app_nonspace a c s :
  Char.isWhiteSpace c = false →
  trimStart (a +:+ String c s) = trimStart a +:+ String c s.
Proof.
  intros Hc. induction a as [|d a IH]; simpl; [by rewrite Hc|].
  by destruct (Char.isWhiteSpace d).
Qed.

Lemma trimEnd_cons c s :
  Char.isWhiteSpace c = false → trimEnd (String c s) = String c (trimEnd s).
Proof. intros Hc. simpl. rewrite Hc. by destruct (trimEnd s). Qed.

Lemma trimEnd_app_nonempty x y :
  trimEnd y ≠ "" → trimEnd (x +:+ y) = x +:+ trimEnd y.
Proof.
  intros Hy. induction x as [|c x IH]; simpl; [done|]. rewrite IH.
  destruct (x +:+ trimEnd y) eqn:E; [|done].
  destruct x; simpl in E; [done|discriminate].
Qed.

Lemma contains_lower_at s : contains "@" (toLowerCase s) = contains "@" s.
Proof. induction s as [|c s IH]; simpl; [done|]. by rewrite lower_char_at, IH. Qed.

Lemma contains_trimStart c s :
  contains c s = false → contains c (trimStart s) = false.
Proof.
  induction s as [|d s IH]; simpl; [done|]. intros [Hd Hs]%orb_false_elim.
  destruct (Char.isWhiteSpace d); [auto|]. simpl. by rewrite Hd, Hs.
Qed.

Lemma find_after_app c a b :
  contains c a = false → find_after c (a +:+ String c b) = Some b.
Proof.
  induction a as [|d a IH]; simpl; [by rewrite Ascii.eqb_refl|].
  intros [-> Ha]%orb_false_elim. by apply IH.
Qed.

(** What is left of the lower-cased, trimmed input after its first [@]. *)
Lemma raw_after_at a b :
  contains "@" a = false →
  after_first "@" (toLowerCase (trim (a +:+ "@" +:+ b))) = toLowerCase (trimEnd b).
Proof.
  intros Ha. unfold trim.
  change (a +:+ "@" +:+ b) with (a +:+ String "@" b).
  rewrite trimStart_app_nonspace by done.
  rewrite trimEnd_app_nonempty by (by rewrite trimEnd_cons).
  rewrite trimEnd_cons by done. rewrite toLowerCase_app. simpl toLowerCase.
  unfold after_first. rewrite find_after_app; [done|].
  rewrite contains_lower_at. by apply contains_trimStart.
Qed.

Lemma domainParts_after_at a1 a2 b :
  contains "@" a1 = false → contains "@" a2 = false →
  domainParts (a1 +:+ "@" +:+ b) = domainParts (a2 +:+ "@" +:+ b).
Proof.
  intros H1 H2. rewrite !domainParts_by_steps. unfold domainParts_steps.
  by rewrite !raw_after_at.
Qed.

(** X2.  Whatever stands before the first [@] of an input plays no part in
    [isUnderTLD], [isStoplisted] and [findSchoolNames]: a local part, a
    user-info segment, and also the scheme and host of a URL whose path
    holds an [@]. *)
Theorem text_before_at_ignored (DATA : SwotData) (a1 a2 b : string) :
  contains "@" a1 = false → contains "@" a2 = false →
  isUnderTLD DATA (a1 +:+ "@" +:+ b) = isUnderTLD DATA (a2 +:+ "@" +:+ b)
  ∧ isStoplisted DATA (a1 +:+ "@" +:+ b) = isStoplisted DATA (a2 +:+ "@" +:+ b)
  ∧ findSchoolNames DATA (a1 +:+ "@" +:+ b)
    = findSchoolNames DATA (a2 +:+ "@" +:+ b).
Proof.
  intros H1 H2. unfold isUnderTLD, isStoplisted, findSchoolNames.
  by rewrite (domainParts_after_at a1 a2 b).
Qed.

Lemma text_before_at_ignored_witness :
  findSchoolNames demo "https://elsewhere.example/@cs.stanford.edu"
  = findSchoolNames demo "alice@cs.stanford.edu"
  ∧ findSchoolNames demo "alice@cs.stanford.edu" = ["Stanford University"].
Proof.
  split; [|vm_compute; reflexivity].
  apply (text_before_at_ignored demo "https://elsewhere.example/" "alice"
           "cs.stanford.edu"); reflexivity.
Defined.

(** ** The local part of a well-shaped address *)

Lemma app_at_inj a a' b b' :
  contains "@" a = false → contains "@" a' = false →
  a +:+ String "@" b = a' +:+ String "@" b' → a = a' ∧ b = b'.
Proof.
  revert a'. induction a as [|c a IH]; intros [|c' a']; simpl.
  - intros _ _ [= ->]. done.
  - intros _ [Hc _]%orb_false_elim [= <- _]. by rewrite Ascii.eqb_refl in Hc.
  - intros [Hc _]%orb_false_elim _ [= -> _]. by rewrite Ascii.eqb_refl in Hc.
  - intros [_ Ha]%orb_false_elim [_ Ha']%orb_false_elim [= -> Heq].
    destruct (IH a' Ha Ha' Heq) as [-> ->]. done.
Qed.

Lemma not_space_at_no_at s :
  all_chars not_space_at s = true → contains "@" s = false.
Proof. by apply all_chars_not_contains. Qed.

Lemma email_shape_domain loc dom :
  loc ≠ "" → all_chars not_space_at loc = true →
  email_shape (loc +:+ "@" +:+ dom)
  ↔ ∃ x y, dom = x +:+ "." +:+ y
           ∧ (x ≠ "" ∧ all_chars not_space_at x = true)
           ∧ (y ≠ "" ∧ all_chars not_space_at y = true).
Proof.
  intros Hne Hloc. split.
  - intros (loc' & x & y & Heq & [_ Hloc'] & Hx & Hy).
    apply app_at_inj in Heq as [_ ->]; eauto using not_space_at_no_at.
  - intros (x & y & -> & Hx & Hy). by exists loc, x, y.
Qed.

(** X3.  For local parts that are non-empty and free of white space and [@],
    [isAcademic] depends on the domain part alone. *)
Theorem isAcademic_ignores_local_part (DATA : SwotData) (loc1 loc2 dom : string) :
  loc1 ≠ "" → all_chars not_space_at loc1 = true →
  loc2 ≠ "" → all_chars not_space_at loc2 = true →
  isAcademic DATA (loc1 +:+ "@" +:+ dom) = isAcademic DATA (loc2 +:+ "@" +:+ dom).
Proof.
  intros Hne1 Hloc1 Hne2 Hloc2.
  unfold isAcademic, isUnderTLD, isStoplisted, findSchoolNames.
  rewrite (domainParts_after_at loc1 loc2 dom) by auto using not_space_at_no_at.
  assert (Htest : RegExp.test re_email (loc1 +:+ "@" +:+ dom)
                  = RegExp.test re_email (loc2 +:+ "@" +:+ dom)).
  { apply eq_true_iff_eq. rewrite !test_re_email.
    by rewrite !email_shape_domain. }
  by rewrite Htest.
Qed.

Lemma isAcademic_ignores_local_part_witness :
  isAcademic demo "jane.doe@ox.ac.uk" = isAcademic demo "J+1@ox.ac.uk"
  ∧ isAcademic demo "jane.doe@ox.ac.uk" = true.
Proof.
  split; [|vm_compute; reflexivity].
  apply (isAcademic_ignores_local_part demo "jane.doe" "J+1" "ox.ac.uk");
    solve [discriminate | reflexivity].
Defined.

(** ** URLs *)

Lemma lower_char_slash c : Ascii.eqb (Char.toLowerCase c) "/" = Ascii.eqb c "/".
Proof. destruct c as [[] [] [] [] [] [] [] []]; reflexivity. Qed.

Lemma lower_char_colon c : Ascii.eqb (Char.toLowerCase c) ":" = Ascii.eqb c ":".
Proof. destruct c as [[] [] [] [] [] [] [] []]; reflexivity. Qed.

Lemma letter_facts c :
  ascii_letter c = true →
  Char.between 97 122 (Char.toLowerCase c) = true
  ∧ Char.isWhiteSpace c = false ∧ Ascii.eqb c "@" = false.
Proof. destruct c as [[] [] [] [] [] [] [] []]; vm_compute; by intros. Qed.

Lemma contains_app c s t : contains c (s +:+ t) = contains c s || contains c t.
Proof. induction s as [|d s IH]; simpl; [done|]. by rewrite IH, orb_assoc. Qed.

Lemma trimEnd_cases c s :
  trimEnd (String c s) = "" ∨ trimEnd (String c s) = String c (trimEnd s).
Proof.
  simpl. destruct (trimEnd s); [|by right].
  destruct (Char.isWhiteSpace c); [by left|by right].
Qed.

Lemma contains_trimEnd c s : contains c s = false → contains c (trimEnd s) = false.
Proof.
  induction s as [|d s IH]; [done|]. intros [Hd Hs]%orb_false_elim.
  destruct (trimEnd_cases d s) as [->| ->]; [done|]. simpl. by rewrite Hd, IH.
Qed.

Lemma trimEnd_app_nospace pre s :
  all_chars (RegExp.neg Char.isWhiteSpace) pre = true →
  trimEnd (pre +:+ s) = pre +:+ trimEnd s.
Proof.
  induction pre as [|c pre IH]; [done|]. cbn [all_chars String.append].
  unfold RegExp.neg at 1. intros [Hc Hpre]%andb_prop.
  apply negb_true_iff in Hc. by rewrite trimEnd_cons, IH.
Qed.

Lemma host_end_normal tail :
  host_end tail = true → host_end (toLowerCase (trimEnd tail)) = true.
Proof.
  destruct tail as [|c s]; [done|]. cbn [host_end]. intros Hc.
  rewrite trimEnd_cons.
  - cbn [toLowerCase host_end]. by rewrite lower_char_slash, lower_char_colon.
  - apply orb_prop in Hc as [->%Ascii.eqb_eq | ->%Ascii.eqb_eq]; reflexivity.
Qed.

Lemma startsWith_scheme_end_normal tail :
  startsWith "://" tail = false →
  startsWith "://" (toLowerCase (trimEnd tail)) = false.
Proof.
  intros H. apply not_true_is_false. intros Hs. apply not_true_iff_false in H.
  apply H. clear H.
  destruct tail as [|c1 t1]; [done|].
  destruct (trimEnd_cases c1 t1) as [E|E]; rewrite E in Hs; [done|].
  cbn [toLowerCase startsWith] in Hs.
  apply andb_prop in Hs as [H1 Hs]. rewrite Ascii.eqb_sym, lower_char_colon in H1.
  destruct t1 as [|c2 t2]; [done|].
  destruct (trimEnd_cases c2 t2) as [E2|E2]; rewrite E2 in Hs; [done|].
  cbn [toLowerCase startsWith] in Hs.
  apply andb_prop in Hs as [H2 Hs]. rewrite Ascii.eqb_sym, lower_char_slash in H2.
  destruct t2 as [|c3 t3]; [done|].
  destruct (trimEnd_cases c3 t3) as [E3|E3]; rewrite E3 in Hs; [done|].
  cbn [toLowerCase startsWith] in Hs.
  apply andb_prop in Hs as [H3 _]. rewrite Ascii.eqb_sym, lower_char_slash in H3.
  cbn [startsWith].
  by rewrite (Ascii.eqb_sym ":" c1), (Ascii.eqb_sym "/" c2),
    (Ascii.eqb_sym "/" c3), H1, H2, H3.
Qed.

Lemma before_first_app_l c d t :
  contains c d = false → before_first c (d +:+ t) = d +:+ before_first c t.
Proof.
  induction d as [|x d IH]; simpl; [done|].
  intros [-> Hd]%orb_false_elim. by rewrite IH.
Qed.

Lemma contains_before_first_other c x s :
  contains x s = false → contains x (before_first c s) = false.
Proof.
  induction s as [|d s IH]; simpl; [done|]. intros [Hd Hs]%orb_false_elim.
  destruct (Ascii.eqb d c); [done|]. simpl. by rewrite Hd, IH.
Qed.

Lemma host_end_cut t :
  host_end t = true → before_first ":" (before_first "/" t) = "".
Proof.
  destruct t as [|c t]; [done|]. cbn [host_end before_first].
  destruct (Ascii.eqb c "/"); [done|]. simpl. by intros ->.
Qed.

Lemma host_no (c : ascii) d :
  host_char c = false → all_chars host_char d = true → contains c d = false.
Proof. apply all_chars_not_contains. Qed.

(** The host is what the cuts at [/], [@] and [:] leave of a host followed
    by a path or a port. *)
Lemma host_before_tail d t :
  all_chars host_char d = true → host_end t = true → contains "@" t = false →
  before_first ":" (after_last "@" (before_first "/" (d +:+ t))) = d.
Proof.
  intros Hd Ht Hat.
  rewrite before_first_app_l by (by apply host_no).
  unfold after_last. rewrite find_after_last_without.
  2:{ rewrite contains_app, (host_no "@" d) by done.
      by apply contains_before_first_other. }
  simpl. rewrite before_first_app_l by (by apply host_no).
  by rewrite host_end_cut, append_nil_r.
Qed.

Lemma skip_letters_stop d t :
  contains ":" d = false → host_end t = true → startsWith "://" t = false →
  startsWith "://" (skip_letters (d +:+ t)) = false.
Proof.
  intros Hd Ht Hs. induction d as [|c d IH]; simpl in *.
  - destruct t as [|c t]; [done|]. simpl in *.
    destruct (Char.between 97 122 c) eqn:Hc; [|done].
    apply orb_prop in Ht as [->%Ascii.eqb_eq | ->%Ascii.eqb_eq]; discriminate.
  - apply orb_false_elim in Hd as [Hc Hd].
    destruct (Char.between 97 122 c); [by apply IH|].
    simpl. by rewrite Ascii.eqb_sym, Hc.
Qed.

Lemma skip_letters_scheme ls rest :
  all_chars (Char.between 97 122) ls = true →
  skip_letters (ls +:+ String ":" rest) = String ":" rest.
Proof.
  induction ls as [|c ls IH]; simpl; [done|].
  intros [-> Hls]%andb_prop. by apply IH.
Qed.

Lemma strip_scheme_app ls rest :
  ls ≠ "" → all_chars (Char.between 97 122) ls = true →
  strip_scheme (ls +:+ "://" +:+ rest) = rest.
Proof.
  intros Hne Hls. unfold strip_scheme.
  change (ls +:+ "://" +:+ rest) with (ls +:+ String ":" ("//" +:+ rest)).
  rewrite skip_letters_scheme by done.
  assert (Hneq : String.eqb (String ":" ("//" +:+ rest))
                   (ls +:+ String ":" ("//" +:+ rest)) = false).
  { apply String.eqb_neq. intros Heq%(f_equal String.length).
    rewrite length_append in Heq. destruct ls; [done|]. simpl in Heq. lia. }
  rewrite Hneq. cbn [negb andb startsWith String.append].
  by rewrite !Ascii.eqb_refl.
Qed.

(** X4.  A URL or a bare host with a port or a path normalises to the labels of
    its host, as long as no [@] follows the host. *)
Theorem url_host_labels (d tail : string) :
  all_chars host_char d = true →
  host_end tail = true →
  contains "@" tail = false →
  (startsWith "://" tail = false → domainParts (d +:+ tail) = labels_of d)
  ∧ (∀ scheme, scheme ≠ "" → all_chars ascii_letter scheme = true →
       domainParts (scheme +:+ "://" +:+ d +:+ tail) = labels_of d).
Proof.
  intros Hd Ht Hat.
  pose proof (host_end_normal tail Ht) as Ht'.
  assert (Hat' : contains "@" (toLowerCase (trimEnd tail)) = false).
  { rewrite contains_lower_at. by apply contains_trimEnd. }
  pose proof (host_before_tail d _ Hd Ht' Hat') as Hhost.
  split.
  - intros Hs. rewrite domainParts_by_steps. unfold domainParts_steps.
    assert (Hraw : toLowerCase (trim (d +:+ tail))
                   = d +:+ toLowerCase (trimEnd tail)).
    { unfold trim. replace (trimStart (d +:+ tail)) with (d +:+ tail).
      - rewrite trimEnd_app_nospace by (by apply host_no_space).
        rewrite toLowerCase_app. f_equal. by apply toLowerCase_id, host_lower.
      - symmetry. destruct d as [|c d]; simpl in *.
        + destruct tail as [|c t]; [done|]. simpl in *.
          apply orb_prop in Ht as [->%Ascii.eqb_eq | ->%Ascii.eqb_eq]; reflexivity.
        + apply andb_prop in Hd as [Hc _]. apply host_char_facts in Hc.
          by destruct Hc as (-> & _). }
    rewrite Hraw. unfold after_first. rewrite find_after_without.
    2:{ by rewrite contains_app, (host_no "@" d), Hat'. }
    simpl. unfold strip_scheme.
    rewrite skip_letters_stop, andb_false_r;
      [by rewrite Hhost|by apply host_no|done|].
    by apply startsWith_scheme_end_normal.
  - intros scheme Hne Hletters.
    rewrite domainParts_by_steps. unfold domainParts_steps.
    assert (Hnospace : all_chars (RegExp.neg Char.isWhiteSpace)
                         (scheme +:+ "://" +:+ d) = true).
    { rewrite all_chars_app. cbn [String.append all_chars].
      rewrite (host_no_space d Hd). rewrite andb_true_iff. split; [|by vm_compute].
      eapply all_chars_impl; [|done]. intros c (_ & Hc & _)%letter_facts.
      unfold RegExp.neg. by rewrite Hc. }
    assert (Hraw : toLowerCase (trim (scheme +:+ "://" +:+ d +:+ tail))
                   = toLowerCase scheme +:+ "://" +:+ d
                     +:+ toLowerCase (trimEnd tail)).
    { unfold trim. replace (trimStart (scheme +:+ "://" +:+ d +:+ tail))
        with ((scheme +:+ "://" +:+ d) +:+ tail).
      - rewrite trimEnd_app_nospace by done.
        rewrite !toLowerCase_app, (toLowerCase_id d) by (by apply host_lower).
        by rewrite !append_assoc.
      - rewrite append_assoc. cbn [String.append]. symmetry.
        destruct scheme as [|c sch]; [done|]. simpl in *.
        apply andb_prop in Hletters as [Hc _]. apply letter_facts in Hc.
        by destruct Hc as (_ & -> & _). }
    rewrite Hraw.
    assert (Hlow : all_chars (Char.between 97 122) (toLowerCase scheme) = true).
    { clear -Hletters. induction scheme as [|c sch IH]; simpl in *; [done|].
      apply andb_prop in Hletters as [Hc Hs]. apply letter_facts in Hc.
      destruct Hc as (-> & _). by rewrite IH. }
    unfold after_first. rewrite find_after_without.
    2:{ rewrite !contains_app. cbn [contains].
        rewrite (host_no "@" d), Hat' by done.
        rewrite (all_chars_not_contains _ "@" _ eq_refl Hlow). by vm_compute. }
    cbn [default]. rewrite strip_scheme_app; [by rewrite Hhost| |done].
    destruct scheme; [done|discriminate].
Qed.

Lemma url_host_labels_witness :
  domainParts "mail.america.edu:8080/inbox" = ["edu"; "america"; "mail"]
  ∧ domainParts "HTTPS://mail.america.edu:8080/inbox" = ["edu"; "america"; "mail"].
Proof.
  destruct (url_host_labels "mail.america.edu" ":8080/inbox") as [Hbare Hurl];
    [reflexivity..|].
  split; [by apply Hbare|].
  by apply (Hurl "HTTPS").
Defined.

(** ** Subdomains *)

Lemma split_app c s d : split c (s +:+ String c d) = split c s ++ split c d.
Proof.
  induction s as [|x s IH]; simpl; [by rewrite Ascii.eqb_refl|].
  rewrite IH. destruct (Ascii.eqb x c); [done|].
  destruct (split c s) as [|f fs] eqn:E; [|done].
  by destruct s; simpl in E; repeat case_match.
Qed.

Lemma labels_of_subdomain sub d :
  d ≠ "" → labels_of (sub +:+ "." +:+ d) = labels_of d ++ rev (split "." sub).
Proof.
  intros Hd. unfold labels_of.
  apply String.eqb_neq in Hd as ->.
  assert (Hne : String.eqb (sub +:+ "." +:+ d) "" = false) by (by destruct sub).
  rewrite Hne. change (sub +:+ "." +:+ d) with (sub +:+ String "." d).
  by rewrite split_app, rev_app_distr.
Qed.

Lemma checkSet_from_app set subj (p q : list string) :
  checkSet_from set subj p = true → checkSet_from set subj (p ++ q) = true.
Proof.
  revert subj. induction p as [|part p IH]; intros subj; simpl; [done|].
  case_decide; [done|]. apply IH.
Qed.

Lemma findSchoolNames_from_app m subj (p q : list string) :
  findSchoolNames_from m subj p ≠ [] →
  findSchoolNames_from m subj (p ++ q) = findSchoolNames_from m subj p.
Proof.
  revert subj. induction p as [|part p IH]; intros subj; simpl; [done|].
  destruct (m !! extend subj part) as [[|n names]|]; auto.
Qed.

Lemma domainParts_email_host loc h :
  contains "@" loc = false → all_chars host_char h = true →
  domainParts (loc +:+ "@" +:+ h) = labels_of h.
Proof.
  intros Hloc Hh. rewrite (domainParts_after_at loc "user" h) by done.
  by apply domainParts_user_at.
Qed.

Lemma inherits_labels DATA parent child (more : list string) :
  domainParts child = domainParts parent ++ more → inherits DATA parent child.
Proof.
  intros Heq. unfold inherits, isAcademic, isStoplisted, isUnderTLD,
    findSchoolNames, checkSet. rewrite Heq.
  split; [apply checkSet_from_app|]. split; [apply checkSet_from_app|].
  split; [apply findSchoolNames_from_app|].
  intros Hstop%(checkSet_from_app _ _ _ more). rewrite Hstop.
  by destruct (RegExp.test re_email child).
Qed.

Lemma host_char_dot_app sub d :
  all_chars host_char sub = true → all_chars host_char d = true →
  all_chars host_char (sub +:+ "." +:+ d) = true.
Proof.
  intros Hsub Hd. rewrite all_chars_app, Hsub. cbn [String.append all_chars].
  by rewrite Hd.
Qed.

(** X5.  A host below a stoplisted host is stoplisted, and never academic; a host
    below a host under an academic TLD is under it; a host below a host
    with institution names has the same names.  This holds for bare hosts
    and for addresses. *)
Theorem subdomain_inherits (DATA : SwotData) (loc sub d : string) :
  contains "@" loc = false →
  all_chars host_char sub = true → all_chars host_char d = true → d ≠ "" →
  inherits DATA d (sub +:+ "." +:+ d)
  ∧ inherits DATA (loc +:+ "@" +:+ d) (loc +:+ "@" +:+ sub +:+ "." +:+ d).
Proof.
  intros Hloc Hsub Hd Hne.
  pose proof (host_char_dot_app sub d Hsub Hd) as Hchild.
  split; apply (inherits_labels _ _ _ (rev (split "." sub))).
  - by rewrite !domainParts_host, labels_of_subdomain.
  - by rewrite !domainParts_email_host, labels_of_subdomain.
Qed.

Lemma subdomain_inherits_witness :
  isStoplisted demo "mail.cs.america.edu" = true
  ∧ isAcademic demo "dean@mail.cs.america.edu" = false
  ∧ findSchoolNames demo "x@a.b.stanford.edu" = ["Stanford University"].
Proof.
  destruct (subdomain_inherits demo "dean" "mail.cs" "america.edu")
    as [(Hstop & _) (_ & _ & _ & Hacad)]; [reflexivity..|discriminate|].
  destruct (subdomain_inherits demo "x" "a.b" "stanford.edu")
    as [_ (_ & _ & Hnames & _)]; [reflexivity..|discriminate|].
  split; [apply Hstop; vm_compute; reflexivity|].
  split; [apply Hacad; vm_compute; reflexivity|].
  transitivity (findSchoolNames demo "x@stanford.edu");
    [apply Hnames; vm_compute; discriminate|vm_compute; reflexivity].
Defined.

(** ** Where the names come from *)

Lemma findSchoolNames_from_found m (pre parts : list string) :
  findSchoolNames_from m (name_of pre) parts ≠ [] →
  ∃ k, (1 ≤ k ≤ length parts)%nat
       ∧ m !! name_of (pre ++ take k parts)
         = Some (findSchoolNames_from m (name_of pre) parts)
       ∧ ∀ j, (1 ≤ j < k)%nat → hit m (name_of (pre ++ take j parts)) = false.
Proof.
  revert pre. induction parts as [|part rest IH]; intros pre; simpl; [done|].
  rewrite extend_name_of.
  destruct (m !! name_of (pre ++ [part])) as [[|n names]|] eqn:E.
  1,3: intros (k & Hk & Hm & Hleast)%IH; exists (S k);
       rewrite take_snoc_S; split; [lia|]; split; [done|];
       intros [|[|j]] Hj; [lia| |];
       rewrite take_snoc_S;
       [rewrite take_0, app_nil_r; unfold hit; by rewrite E|apply Hleast; lia].
  intros _. exists 1%nat. simpl. rewrite take_0.
  split; [lia|]. split; [done|]. intros j Hj. lia.
Qed.

(** X6.  A non-empty answer of [findSchoolNames] is the list the institution map
    binds to a suffix of the host, the least specific suffix bound to a
    non-empty list; no name is made up. *)
Theorem findSchoolNames_from_map (DATA : SwotData) (e : string) :
  findSchoolNames DATA e ≠ [] →
  ∃ k, (1 ≤ k ≤ length (domainParts e))%nat
       ∧ institutions DATA !! suffix k (domainParts e)
         = Some (findSchoolNames DATA e)
       ∧ ∀ j, (1 ≤ j < k)%nat →
           hit (institutions DATA) (suffix j (domainParts e)) = false.
Proof. apply (findSchoolNames_from_found (institutions DATA) [] (domainParts e)). Qed.

Lemma findSchoolNames_from_map_witness :
  ∃ k, (1 ≤ k ≤ 3)%nat
       ∧ institutions demo !! suffix k ["edu"; "stanford"; "cs"]
         = Some ["Stanford University"].
Proof.
  destruct (findSchoolNames_from_map demo "alice@cs.stanford.edu")
    as (k & Hk & Hm & _); [vm_compute; discriminate|].
  exists k. split; [exact Hk|exact Hm].
Defined.

(** ** The labels the normaliser returns *)

Lemma all_chars_find_after p c s r :
  find_after c s = Some r → all_chars p s = true → all_chars p r = true.
Proof.
  induction s as [|d s IH]; simpl; [done|]. intros Hf [_ Hs]%andb_prop.
  destruct (Ascii.eqb d c); [by injection Hf as <-|auto].
Qed.

Lemma all_chars_find_after_last p c s r :
  find_after_last c s = Some r → all_chars p s = true → all_chars p r = true.
Proof.
  revert r. induction s as [|d s IH]; intros r; simpl; [done|].
  intros Hf [_ Hs]%andb_prop.
  destruct (find_after_last c s) as [r'|]; [injection Hf as <-; eauto|].
  destruct (Ascii.eqb d c); by simplify_eq.
Qed.

Lemma all_chars_after_first p c s :
  all_chars p s = true → all_chars p (after_first c s) = true.
Proof.
  intros Hs. unfold after_first. destruct (find_after c s) eqn:E; [|done].
  by eapply all_chars_find_after.
Qed.

Lemma all_chars_after_last p c s :
  all_chars p s = true → all_chars p (after_last c s) = true.
Proof.
  intros Hs. unfold after_last. destruct (find_after_last c s) eqn:E; [|done].
  by eapply all_chars_find_after_last.
Qed.

Lemma all_chars_before_first p c s :
  all_chars p s = true → all_chars p (before_first c s) = true.
Proof.
  induction s as [|d s IH]; simpl; [done|]. intros [Hd Hs]%andb_prop.
  destruct (Ascii.eqb d c); [done|]. simpl. by rewrite Hd, IH.
Qed.

Lemma all_chars_drop_chars p n s :
  all_chars p s = true → all_chars p (drop_chars n s) = true.
Proof.
  revert s. induction n as [|n IH]; intros [|c s]; simpl; try done.
  intros [_ Hs]%andb_prop. by apply IH.
Qed.

Lemma all_chars_skip_letters p s :
  all_chars p s = true → all_chars p (skip_letters s) = true.
Proof.
  induction s as [|c s IH]; simpl; [done|]. intros [Hc Hs]%andb_prop.
  destruct (Char.between 97 122 c); [auto|]. simpl. by rewrite Hc, Hs.
Qed.

Lemma all_chars_strip_scheme p s :
  all_chars p s = true → all_chars p (strip_scheme s) = true.
Proof.
  intros Hs. unfold strip_scheme.
  destruct (_ && _); [|done]. by apply all_chars_drop_chars, all_chars_skip_letters.
Qed.

Lemma all_chars_split p c s l :
  all_chars p s = true → l ∈ split c s → all_chars p l = true.
Proof.
  revert l. induction s as [|d s IH]; intros l; simpl.
  - intros _ ->%list_elem_of_singleton. done.
  - intros [Hd Hs]%andb_prop. destruct (Ascii.eqb d c).
    + intros [->|Hl]%elem_of_cons; [done|eauto].
    + destruct (split c s) as [|f fs] eqn:E.
      * intros ->%list_elem_of_singleton. simpl. by rewrite Hd.
      * intros [->|Hl]%elem_of_cons.
        -- simpl. rewrite Hd. apply IH; [done|left].
        -- apply IH; [done|by right].
Qed.

Lemma split_no_sep c s l : l ∈ split c s → contains c l = false.
Proof.
  revert l. induction s as [|d s IH]; intros l; simpl.
  - intros ->%list_elem_of_singleton. done.
  - destruct (Ascii.eqb d c) eqn:Hd.
    + intros [->|Hl]%elem_of_cons; [done|eauto].
    + destruct (split c s) as [|f fs] eqn:E.
      * intros ->%list_elem_of_singleton. simpl. by rewrite Hd.
      * intros [->|Hl]%elem_of_cons.
        -- simpl. rewrite Hd. apply IH. left.
        -- apply IH. by right.
Qed.

Lemma contains_all_chars c s :
  contains c s = false ↔ all_chars (λ x, negb (Ascii.eqb x c)) s = true.
Proof.
  induction s as [|d s IH]; simpl; [done|].
  rewrite orb_false_iff, andb_true_iff, negb_true_iff. by rewrite IH.
Qed.

Lemma contains_after_last c s : contains c (after_last c s) = false.
Proof.
  unfold after_last.
  induction s as [|d s IH]; simpl; [done|].
  destruct (find_after_last c s) as [r|] eqn:E; simpl in *; [done|].
  destruct (Ascii.eqb d c) eqn:Hd; simpl; [done|]. by rewrite Hd.
Qed.

Lemma all_chars_lowered s :
  all_chars (λ c, Ascii.eqb (Char.toLowerCase c) c) (toLowerCase s) = true.
Proof.
  induction s as [|c s IH]; simpl; [done|].
  by rewrite lower_char_idem, Ascii.eqb_refl.
Qed.

(** X7.  Every label [domainParts] returns is in lower case and holds none of the
    characters [.], [/], [:] and [@]. *)
Theorem domainParts_labels_clean (e l : string) :
  l ∈ domainParts e →
  toLowerCase l = l
  ∧ contains "." l = false ∧ contains "/" l = false
  ∧ contains ":" l = false ∧ contains "@" l = false.
Proof.
  rewrite domainParts_by_steps. unfold domainParts_steps, labels_of.
  set (raw := toLowerCase (trim e)).
  set (cut := before_first "/" (strip_scheme (after_first "@" raw))).
  set (host := before_first ":" (after_last "@" cut)).
  destruct (String.eqb host ""); [by intros ?%elem_of_nil|].
  intros Hl. apply list_elem_of_In in Hl. apply (proj2 (in_rev _ _)) in Hl.
  apply list_elem_of_In in Hl.
  assert (Hlow : all_chars (λ c, Ascii.eqb (Char.toLowerCase c) c) host = true).
  { apply all_chars_before_first, all_chars_after_last, all_chars_before_first,
      all_chars_strip_scheme, all_chars_after_first, all_chars_lowered. }
  assert (Hslash : contains "/" host = false).
  { apply contains_all_chars, all_chars_before_first, all_chars_after_last,
      contains_all_chars, contains_before_first. }
  assert (Hat : contains "@" host = false).
  { apply contains_all_chars, all_chars_before_first, contains_all_chars,
      contains_after_last. }
  assert (Hcolon : contains ":" host = false) by apply contains_before_first.
  split; [by apply toLowerCase_id, (all_chars_split _ "." host)|].
  split; [by apply (split_no_sep "." host)|].
  repeat split; apply contains_all_chars, (all_chars_split _ "." host);
    try done; by apply contains_all_chars.
Qed.

Lemma domainParts_labels_clean_witness :
  "america" ∈ domainParts "  HTTPS://user:pw@Mail.America.EDU:8080/path?x  "
  ∧ toLowerCase "america" = "america".
Proof.
  assert (Hin : "america"
                ∈ domainParts "  HTTPS://user:pw@Mail.America.EDU:8080/path?x  ").
  { replace (domainParts _) with ["edu"; "america"; "mail"]
      by (vm_compute; reflexivity).
    apply elem_of_cons. right. left. }
  split; [exact Hin|].
  exact (proj1 (domainParts_labels_clean _ _ Hin)).
Defined.

(** * Further properties of the dataset build *)

(** ** Trimming twice *)

Lemma trimStart_no_leading_space s : no_leading_space (trimStart s) = true.
Proof.
  induction s as [|c s IH]; simpl; [done|].
  destruct (Char.isWhiteSpace c) eqn:Hc; [done|]. simpl. by rewrite Hc.
Qed.

Lemma trimEnd_no_leading_space s :
  no_leading_space s = true → no_leading_space (trimEnd s) = true.
Proof.
  destruct s as [|c s]; [done|]. intros Hc.
  by destruct (trimEnd_cases c s) as [->| ->].
Qed.

Lemma trimStart_fixed s : no_leading_space s = true → trimStart s = s.
Proof. destruct s as [|c s]; simpl; [done|]. by intros ->%negb_true_iff. Qed.

Lemma trimEnd_idem s : trimEnd (trimEnd s) = trimEnd s.
Proof.
  induction s as [|c s IH]; simpl; [done|].
  destruct (trimEnd s) as [|d t] eqn:E.
  - destruct (Char.isWhiteSpace c) eqn:Hc; simpl; [done|]. by rewrite Hc.
  - cbn [trimEnd]. cbn [trimEnd] in IH. by rewrite IH.
Qed.

Lemma trim_idem s : trim (trim s) = trim s.
Proof.
  unfold trim. rewrite (trimStart_fixed (trimEnd _)).
  - apply trimEnd_idem.
  - apply trimEnd_no_leading_space, trimStart_no_leading_space.
Qed.

(** ** The names of an institution file *)

(** X13.  Every name [parseSchoolFile] returns is a trimmed line of the text, is
    not empty and does not start with [#]. *)
Theorem parseSchoolFile_names (text name : string) :
  name ∈ parseSchoolFile text →
  name ≠ "" ∧ startsWith "#" name = false ∧ trim name = name
  ∧ ∃ line, line ∈ RegExp.split re_newline text ∧ name = trim line.
Proof.
  unfold parseSchoolFile.
  intros [Hkeep (line & -> & Hline)%list_elem_of_fmap]%list_elem_of_filter.
  apply andb_prop in Hkeep as [Hne Hhash].
  split; [by apply truthy_nonempty|]. split; [by apply negb_true_iff|].
  split; [apply trim_idem|by exists line].
Qed.

Lemma parseSchoolFile_names_witness :
  "Stanford University" ∈ parseSchoolFile "# California
  Stanford University
"
  ∧ trim "Stanford University" = "Stanford University".
Proof.
  assert (Hin : "Stanford University" ∈ parseSchoolFile "# California
  Stanford University
").
  { replace (parseSchoolFile _) with ["Stanford University"]
      by (vm_compute; reflexivity).
    left. }
  split; [exact Hin|].
  exact (proj1 (proj2 (proj2 (parseSchoolFile_names _ _ Hin)))).
Defined.

(** ** Line endings *)

Lemma match_re_newline_line c s :
  line_char c = true → RegExp.match_at re_newline (String c s) = None.
Proof.
  unfold line_char. intros [Hcr Hlf]%andb_prop.
  apply negb_true_iff in Hcr, Hlf.
  unfold re_newline. re_unfold. unfold RegExp.chr.
  by rewrite (Ascii.eqb_sym "013"), (Ascii.eqb_sym "010"), Hcr, Hlf.
Qed.

Lemma split_from_line l :
  all_chars line_char l = true → RegExp.split_from re_newline 0 l = [l].
Proof.
  induction l as [|c l IH]; [done|]. cbn [all_chars].
  intros [Hc Hl]%andb_prop. cbn [RegExp.split_from].
  by rewrite match_re_newline_line, IH.
Qed.

Lemma split_from_lf l rest :
  all_chars line_char l = true →
  RegExp.split_from re_newline 0 (l +:+ String "010" rest)
  = l :: RegExp.split_from re_newline 0 rest.
Proof.
  induction l as [|c l IH]; cbn [all_chars String.append].
  - intros _. cbn [RegExp.split_from].
    change (RegExp.match_at re_newline (String "010" rest)) with (Some rest).
    cbn [String.length]. by rewrite Nat.sub_succ_l, Nat.sub_diag by lia.
  - intros [Hc Hl]%andb_prop. cbn [RegExp.split_from].
    by rewrite match_re_newline_line, IH.
Qed.

Lemma split_from_crlf l rest :
  all_chars line_char l = true →
  RegExp.split_from re_newline 0 (l +:+ String "013" (String "010" rest))
  = l :: RegExp.split_from re_newline 0 rest.
Proof.
  induction l as [|c l IH]; cbn [all_chars String.append].
  - intros _. cbn [RegExp.split_from].
    change (RegExp.match_at re_newline (String "013" (String "010" rest)))
      with (Some rest).
    cbn [String.length].
    replace (S (S (String.length rest)) - String.length rest)%nat with 2%nat
      by lia.
    done.
  - intros [Hc Hl]%andb_prop. cbn [RegExp.split_from].
    by rewrite match_re_newline_line, IH.
Qed.

Lemma split_lines (lines : list string) :
  lines ≠ [] → Forall (λ l, all_chars line_char l = true) lines →
  RegExp.split re_newline (join (String "010" "") lines) = lines
  ∧ RegExp.split re_newline (join (String "013" (String "010" "")) lines) = lines.
Proof.
  intros Hne Hall. unfold RegExp.split.
  induction Hall as [|l ls Hl Hls IH]; [done|].
  destruct ls as [|l' ls]; [by rewrite !split_from_line|].
  destruct IH as [IHlf IHcrlf]; [done|].
  change (join (String "010" "") (l :: l' :: ls))
    with (l +:+ String "010" (join (String "010" "") (l' :: ls))).
  change (join (String "013" (String "010" "")) (l :: l' :: ls))
    with (l +:+ String "013" (String "010"
            (join (String "013" (String "010" "")) (l' :: ls)))).
  by rewrite split_from_lf, split_from_crlf, IHlf, IHcrlf.
Qed.

(** X14.  A file written one name per line reads the same with LF and with CRLF
    line ends: the trimmed lines in order, without the empty ones and the
    ones that start with [#]. *)
Theorem parseSchoolFile_line_ends (lines : list string) :
  lines ≠ [] → Forall (λ l, all_chars line_char l = true) lines →
  parseSchoolFile (join (String "010" "") lines) = kept_lines lines
  ∧ parseSchoolFile (join (String "013" (String "010" "")) lines)
    = kept_lines lines.
Proof.
  intros Hne Hall. destruct (split_lines lines Hne Hall) as [Hlf Hcrlf].
  unfold parseSchoolFile, kept_lines. by rewrite Hlf, Hcrlf.
Qed.

Lemma parseSchoolFile_line_ends_witness :
  parseSchoolFile (join (String "013" (String "010" ""))
                     ["# California"; " Stanford University "; ""; "Caltech"])
  = ["Stanford University"; "Caltech"].
Proof.
  destruct (parseSchoolFile_line_ends
              ["# California"; " Stanford University "; ""; "Caltech"])
    as [_ ->]; [discriminate|repeat constructor|].
  vm_compute; reflexivity.
Defined.

(** ** The control lists *)

Lemma control_list_fold (lines : list string) (init : gset string) (d : string) :
  d ∈ foldl (λ set line,
               let domain := toLowerCase (trim line) in
               if truthy domain && negb (startsWith "#" domain)
               then {[ domain ]} ∪ set else set) init lines
  ↔ d ∈ init
    ∨ ∃ line, line ∈ lines ∧ d = toLowerCase (trim line)
              ∧ d ≠ "" ∧ startsWith "#" d = false.
Proof.
  revert init. induction lines as [|line lines IH]; intros init; cbn [foldl].
  - split; [by left|]. intros [?|(? & []%elem_of_nil & _)]. done.
  - rewrite IH. clear IH.
    destruct (truthy (toLowerCase (trim line))
              && negb (startsWith "#" (toLowerCase (trim line)))) eqn:Hkeep.
    + apply andb_prop in Hkeep as [Hne%truthy_nonempty Hhash%negb_true_iff].
      split.
      * intros [[->%elem_of_singleton|Hin]%elem_of_union|(l & Hl & Hd)].
        -- right. exists line. split; [left|done].
        -- by left.
        -- right. exists l. split; [by right|done].
      * intros [Hin|(l & [->|Hl]%elem_of_cons & Hd)].
        -- left. apply elem_of_union. by right.
        -- left. apply elem_of_union. left. apply elem_of_singleton. apply Hd.
        -- right. by exists l.
    + split.
      * intros [Hin|(l & Hl & Hd)]; [by left|].
        right. exists l. split; [by right|done].
      * intros [Hin|(l & [->|Hl]%elem_of_cons & -> & Hne & Hhash)]; [by left| |].
        -- apply truthy_nonempty in Hne. by rewrite Hne, Hhash in Hkeep.
        -- right. by exists l.
Qed.

(** X15.  The entries of the stoplist and of the TLD set are the lower-cased,
    trimmed lines of the control file that are not empty and do not start
    with [#]; each entry is in lower case and has no white space around it. *)
Theorem control_list_entries (content d : string) :
  d ∈ control_list content →
  (∃ line, line ∈ RegExp.split re_newline content ∧ d = toLowerCase (trim line))
  ∧ d ≠ "" ∧ startsWith "#" d = false
  ∧ toLowerCase d = d ∧ trim d = d.
Proof.
  unfold control_list.
  intros [[]%not_elem_of_empty|(line & Hline & -> & Hne & Hhash)]%control_list_fold.
  split; [by exists line|]. split; [done|]. split; [done|].
  split; [apply toLowerCase_idem|].
  by rewrite <- trim_lower, trim_idem.
Qed.

Lemma control_list_entries_witness :
  "america.edu" ∈ control_list "# excluded
  America.EDU
"
  ∧ toLowerCase "america.edu" = "america.edu".
Proof.
  assert (Hin : "america.edu" ∈ control_list "# excluded
  America.EDU
").
  { replace (control_list _) with ({[ "america.edu" ]} : gset string)
      by (vm_compute; reflexivity).
    by apply elem_of_singleton_2. }
  split; [exact Hin|].
  exact (proj1 (proj2 (proj2 (proj2 (control_list_entries _ _ Hin))))).
Defined.

(** ** The merge of the institution files *)

Lemma visit_offer domainToASCII libDomains
    (inst : gmap string (list string)) (entry : path * option string) :
  visit domainToASCII libDomains inst entry
  = match offer domainToASCII libDomains entry with
    | Some (key, names) =>
        if bool_decide (is_Some (inst !! key)) then inst
        else <[ key := names ]> inst
    | None => inst
    end.
Proof.
  destruct entry as [file read]. unfold visit, offer.
  destruct (endsWith ".txt" (basename file)); cbn [negb andb]; [|done].
  destruct (String.eqb (basename file) "stoplist.txt"); cbn [negb andb]; [done|].
  destruct (String.eqb (basename file) "tlds.txt"); cbn [negb andb]; [done|].
  destruct (String.eqb (basename file) "abused.txt"); cbn [negb andb]; [done|].
  destruct read as [content|]; [|done].
  destruct (parseSchoolFile content) as [|n names]; [done|].
  cbn [length Z.of_nat Z.ltb Z.compare andb].
  by destruct (bool_decide _).
Qed.

Lemma foldl_visit_first_offer domainToASCII libDomains
    (files : list (path * option string)) (inst : gmap string (list string))
    (key : string) :
  foldl (visit domainToASCII libDomains) inst files !! key
  = match inst !! key with
    | Some names => Some names
    | None => first_offer key (omap (offer domainToASCII libDomains) files)
    end.
Proof.
  revert inst. induction files as [|entry files IH]; intros inst; simpl.
  - by destruct (inst !! key).
  - rewrite IH, visit_offer.
    destruct (offer domainToASCII libDomains entry) as [[k names]|]; [|done].
    simpl. case_bool_decide as Hk.
    + destruct (inst !! key) eqn:Hkey; [done|].
      destruct (String.eqb_spec k key) as [->|]; [|done].
      rewrite Hkey in Hk. by destruct Hk.
    + apply eq_None_not_Some in Hk.
      destruct (String.eqb_spec k key) as [->|Hne].
      * by rewrite lookup_insert_eq, Hk.
      * by rewrite lookup_insert_ne.
Qed.

(** X16.  The institution map of a build binds a key to the names of the first
    walked file that offers it (a [.txt] file that is none of the three
    reserved files, can be read and has a name), and binds nothing else:
    files that cannot be read, have no name or come later play no part. *)
Theorem institutions_first_offer
    (domainToASCII : string → string) (libDomains : path)
    (listing : option (list dirent)) (DATA : SwotData) :
  readSwot domainToASCII libDomains listing = Ok DATA →
  ∃ files,
    walk libDomains listing = Some files
    ∧ ∀ key, institutions DATA !! key
             = first_offer key (omap (offer domainToASCII libDomains) files).
Proof.
  intros (files & Hwalk & ->)%readSwot_ok. exists files. split; [done|].
  intros key. by rewrite foldl_visit_first_offer, lookup_empty.
Qed.

Lemma institutions_first_offer_witness :
  institutions merge_data !! "stanford.edu" = Some ["Stanford University"]
  ∧ institutions merge_data !! "nothing.edu" = None.
Proof.
  destruct (institutions_first_offer (λ d, d) ["swot"; "lib"; "domains"]
              (Some merge_tree) merge_data) as (files & Hwalk & Hkeys);
    [vm_compute; reflexivity|].
  injection Hwalk as <-.
  split; rewrite Hkeys; vm_compute; reflexivity.
Defined.

(** ** The tree walk *)

Lemma dirent_nested_ind (P : dirent → Prop) :
  (∀ name content, P (File name content)) →
  (∀ name, P (Directory name None)) →
  (∀ name sub, Forall P sub → P (Directory name (Some sub))) →
  (∀ name content, P (Other name content)) →
  ∀ e, P e.
Proof.
  intros HF HN HD HO. fix IH 1.
  intros [name content|name [sub|]|name content];
    [apply HF| |apply HN|apply HO].
  apply HD. revert sub. fix IHsub 1.
  intros [|e sub]; constructor; [apply IH|apply IHsub].
Qed.

Lemma walk_entry_directory dir name sub :
  walk_entry dir (Directory name (Some sub)) = walk_entries (dir ++ [name]) sub.
Proof.
  cbn [walk_entry]. induction sub as [|e sub IH]; [done|].
  cbn [walk_entries]. by rewrite <- IH.
Qed.

Lemma listable_directory name sub :
  listable (Directory name (Some sub)) = all_listable sub.
Proof.
  cbn [listable]. induction sub as [|e sub IH]; [done|].
  cbn [all_listable]. by rewrite <- IH.
Qed.

Lemma walk_entries_listable dir (entries : list dirent) :
  Forall (λ e, ∀ dir, is_Some (walk_entry dir e) ↔ listable e = true) entries →
  is_Some (walk_entries dir entries) ↔ all_listable entries = true.
Proof.
  induction 1 as [|e rest He Hrest IH]; cbn [walk_entries all_listable].
  - split; [done|by eexists].
  - rewrite andb_true_iff, <- (He dir), <- IH.
    destruct (walk_entry dir e), (walk_entries dir rest); split;
      try (by intros [? ?]); try (by intros [[? ?] [? ?]]); by eauto.
Qed.

Lemma walk_entry_listable e :
  ∀ dir, is_Some (walk_entry dir e) ↔ listable e = true.
Proof.
  induction e as [name content|name|name sub IH|name content]
    using dirent_nested_ind; intros dir.
  - split; [done|by eexists].
  - split; [by intros [? ?]|done].
  - rewrite walk_entry_directory, listable_directory.
    by apply walk_entries_listable.
  - split; [done|by eexists].
Qed.

Lemma walk_listable dir (entries : list dirent) :
  is_Some (walk dir (Some entries)) ↔ all_listable entries = true.
Proof.
  apply walk_entries_listable, Forall_forall. intros e _. apply walk_entry_listable.
Qed.

(** X17.  The build succeeds exactly when the domains directory can be accessed,
    [stoplist.txt] and [tlds.txt] can be read and every directory below can
    be listed.  An institution file that cannot be read never fails it. *)
Theorem build_succeeds_iff
    (domainToASCII : string → string) (libDomains : path)
    (listing : option (list dirent)) :
  (∃ DATA, readSwot domainToASCII libDomains listing = Ok DATA)
  ↔ ∃ entries,
      listing = Some entries
      ∧ is_Some (readFile entries "stoplist.txt")
      ∧ is_Some (readFile entries "tlds.txt")
      ∧ all_listable entries = true.
Proof.
  split.
  - intros [DATA H]. unfold readSwot in H.
    destruct listing as [entries|]; [|done].
    destruct (readFile entries "stoplist.txt") as [sc|] eqn:Hs; [|done].
    destruct (readFile entries "tlds.txt") as [tc|] eqn:Ht; [|done].
    destruct (walk libDomains (Some entries)) as [files|] eqn:Hw; [|done].
    exists entries. split; [done|]. split; [by rewrite Hs|].
    split; [by rewrite Ht|]. apply (walk_listable libDomains). by rewrite Hw.
  - intros (entries & -> & [sc Hs] & [tc Ht] & Hl).
    apply (walk_listable libDomains) in Hl as [files Hw].
    unfold readSwot. rewrite Hs, Ht, Hw. by eexists.
Qed.

Lemma walk_entries_below dir (entries : list dirent) files :
  Forall (λ e, ∀ dir files, walk_entry dir e = Some files →
               ∀ file read, (file, read) ∈ files →
               ∃ rel, rel ≠ [] ∧ file = dir ++ rel) entries →
  walk_entries dir entries = Some files →
  ∀ file read, (file, read) ∈ files → ∃ rel, rel ≠ [] ∧ file = dir ++ rel.
Proof.
  intros Hall. revert files.
  induction Hall as [|e rest He Hrest IH]; intros files; cbn [walk_entries].
  - intros [= <-] file read []%elem_of_nil.
  - destruct (walk_entry dir e) as [here|] eqn:Ee; [|done].
    destruct (walk_entries dir rest) as [there|]; [|done].
    intros [= <-] file read [Hin|Hin]%elem_of_app; eauto.
Qed.

Lemma walk_entry_below e :
  ∀ dir files, walk_entry dir e = Some files →
  ∀ file read, (file, read) ∈ files → ∃ rel, rel ≠ [] ∧ file = dir ++ rel.
Proof.
  induction e as [name content|name|name sub IH|name content]
    using dirent_nested_ind; intros dir files.
  - intros [= <-] file read [= -> _]%list_elem_of_singleton. by exists [name].
  - done.
  - rewrite walk_entry_directory. intros Hwalk file read Hin.
    destruct (walk_entries_below _ _ _ IH Hwalk file read Hin) as (rel & _ & ->).
    exists (name :: rel). split; [done|]. by rewrite <- app_assoc.
  - intros [= <-] file read []%elem_of_nil.
Qed.

(** X18.  Every path the walk yields lies strictly below the directory it started
    from, so its relative path has at least one segment; no path is cut short
    or taken from elsewhere. *)
Theorem walked_files_below (dir : path) (listing : option (list dirent))
    (files : list (path * option string)) (file : path) (read : option string) :
  walk dir listing = Some files → (file, read) ∈ files →
  ∃ rel, rel ≠ [] ∧ file = dir ++ rel ∧ relative_parts dir file = rel.
Proof.
  destruct listing as [entries|]; [|done]. cbn [walk mbind option_bind].
  intros Hwalk Hin.
  destruct (walk_entries_below dir entries files) with (file := file) (read := read)
    as (rel & Hne & ->); [|done|done|].
  { apply Forall_forall. intros e _. apply walk_entry_below. }
  exists rel. split; [done|]. split; [done|]. by apply relative_parts_below.
Qed.

Lemma walked_files_below_witness :
  ∃ rel, rel ≠ []
         ∧ ["swot"; "lib"; "domains"; "edu"; "stanford.txt"]
           = ["swot"; "lib"; "domains"] ++ rel
         ∧ relative_parts ["swot"; "lib"; "domains"]
             ["swot"; "lib"; "domains"; "edu"; "stanford.txt"] = rel.
Proof.
  destruct (walk ["swot"; "lib"; "domains"] (Some merge_tree)) as [files|] eqn:E;
    [|vm_compute in E; discriminate].
  apply (walked_files_below ["swot"; "lib"; "domains"] (Some merge_tree) files
           _ (Some "Stanford University") E).
  vm_compute in E. injection E as <-.
  do 3 right. left.
Defined.

(** * Further properties of the loader *)

Lemma control_list_lower content d :
  d ∈ control_list content → toLowerCase d = d.
Proof.
  unfold control_list.
  intros [[]%not_elem_of_empty|(line & _ & -> & _)]%control_list_fold.
  apply toLowerCase_idem.
Qed.

Lemma lowered_set_fixed (set : gset string) :
  (∀ d, d ∈ set → toLowerCase d = d) →
  list_to_set (toLowerCase <$> elements set) = set.
Proof.
  intros Hlow. apply set_eq. intros d.
  rewrite elem_of_list_to_set, list_elem_of_fmap. split.
  - intros (x & -> & Hx%elem_of_elements). by rewrite Hlow.
  - intros Hd. exists d. split; [by rewrite Hlow|by apply elem_of_elements].
Qed.

Lemma readSwot_sets domainToASCII libDomains listing DATA :
  readSwot domainToASCII libDomains listing = Ok DATA →
  ∃ stoplistContent tldsContent,
    stoplist DATA = control_list stoplistContent
    ∧ tlds DATA = control_list tldsContent.
Proof.
  unfold readSwot. destruct listing as [entries|]; [|done].
  destruct (readFile entries "stoplist.txt") as [sc|]; [|done].
  destruct (readFile entries "tlds.txt") as [tc|]; [|done].
  destruct (walk libDomains (Some entries)) as [files|]; [|done].
  intros [= <-]. by exists sc, tc.
Qed.

Lemma mapM_as_string (names : list string) :
  mapM as_string (JString <$> names) = Some names.
Proof. by apply mapM_fmap_Some. Qed.

Lemma lowered_names (names : list string) :
  lowered (Some (names_json names)) = Some (toLowerCase <$> names).
Proof. unfold lowered, names_json. by rewrite mapM_as_string. Qed.

Lemma entries_map_names (m : gmap string (list string)) :
  entries_map (Some (JObject (prod_map id names_json <$> map_to_list m)))
  = Some (names_json <$> m).
Proof.
  cbn [entries_map]. f_equal.
  rewrite <- (list_to_map_proper (prod_map id names_json <$> map_to_list m)).
  - by rewrite list_to_map_fmap, list_to_map_to_list.
  - rewrite <- list_fmap_compose.
    rewrite (list_fmap_ext _ fst (map_to_list m)) by (by intros ? []).
    apply NoDup_fst_map_to_list.
  - symmetry. apply reverse_Permutation.
Qed.

Lemma typed_names (m : gmap string (list string)) :
  typed (names_json <$> m) = true
  ∧ omap as_names (names_json <$> m) = m.
Proof.
  split.
  - unfold typed. apply forallb_forall. intros [k v] Hin%list_elem_of_In.
    apply elem_of_map_to_list in Hin. rewrite lookup_fmap in Hin.
    destruct (m !! k) as [names|]; [|done]. injection Hin as <-.
    cbn [snd as_names names_json]. by rewrite mapM_as_string.
  - apply map_eq. intros k. rewrite lookup_omap, lookup_fmap.
    destruct (m !! k) as [names|]; [|done].
    cbn [fmap option_fmap option_map mbind option_bind as_names names_json].
    by rewrite mapM_as_string.
Qed.

(** The artifact of a packed dataset loads, into the dataset of it. *)
Lemma load_of_to_json (brotliDecompressSync : string → option string)
    (JSON_parse : string → option json) (file : option string)
    (packed : SwotDataPacked) :
  read_packed brotliDecompressSync JSON_parse file = Some (to_json packed) →
  loadData brotliDecompressSync JSON_parse file = Loaded (unpacked packed).
Proof.
  intros Hread. unfold loadData. rewrite Hread. cbn [default from_option id].
  change (property "institutions" (to_json packed))
    with (Some (Some (JObject (prod_map id names_json
                                 <$> map_to_list (packed_institutions packed))))).
  change (property "stoplist" (to_json packed))
    with (Some (Some (names_json (packed_stoplist packed)))).
  change (property "tlds" (to_json packed))
    with (Some (Some (names_json (packed_tlds packed)))).
  cbn [mbind option_bind]. rewrite entries_map_names, !lowered_names.
  cbn [mbind option_bind].
  destruct (typed_names (packed_institutions packed)) as [-> ->]. done.
Qed.

(** X12.  Build, write, read back: when the artifact the loader reads holds the
    packed form of a dataset the build returned, the loader returns that
    dataset.  Lower-casing at load changes nothing, the build has done it. *)
Theorem build_then_load
    (domainToASCII : string → string) (libDomains : path)
    (listing : option (list dirent)) (built : SwotData)
    (brotliDecompressSync : string → option string)
    (JSON_parse : string → option json) (file : option string) :
  readSwot domainToASCII libDomains listing = Ok built →
  read_packed brotliDecompressSync JSON_parse file = Some (to_json (pack built)) →
  loadData brotliDecompressSync JSON_parse file = Loaded built.
Proof.
  intros (sc & tc & Hstop & Htlds)%readSwot_sets Hread.
  rewrite (load_of_to_json _ _ _ _ Hread). f_equal.
  unfold unpacked, pack.
  cbn [packed_institutions packed_stoplist packed_tlds].
  rewrite !lowered_set_fixed; [by destruct built| |].
  - rewrite Htlds. apply control_list_lower.
  - rewrite Hstop. apply control_list_lower.
Qed.

Lemma build_then_load_witness :
  loadData (λ _, Some "json") (λ _, Some (to_json (pack merge_data)))
    (Some "bytes")
  = Loaded merge_data.
Proof.
  apply (build_then_load (λ d, d) ["swot"; "lib"; "domains"] (Some merge_tree)
           merge_data (λ _, Some "json")
           (λ _, Some (to_json (pack merge_data)))
           (Some "bytes")); [vm_compute; reflexivity|reflexivity].
Defined.

Lemma checkSet_canonical set d :
  canonical_key d → d ∈ set → checkSet set (domainParts d) = true.
Proof.
  intros Hkey Hin. rewrite domainParts_host by (by apply canonical_key_host).
  destruct (canonical_key_labels d Hkey) as [Hne Hname].
  apply checkSet_whole; [done|by rewrite Hname].
Qed.

(** X11.  A stoplist or TLD entry of the artifact is found whatever its letter
    case: the loader lower-cases the entries and the normaliser the input.
    The artifact of a packed dataset loads, and over the dataset loaded the
    entry as written, once lower-cased a canonical key, is stoplisted (or
    under the TLD). *)
Theorem loaded_entry_matches
    (brotliDecompressSync : string → option string)
    (JSON_parse : string → option json) (file : option string)
    (packed : SwotDataPacked) (s : string) :
  read_packed brotliDecompressSync JSON_parse file = Some (to_json packed) →
  canonical_key (toLowerCase s) →
  ∃ DATA : SwotData,
    loadData brotliDecompressSync JSON_parse file = Loaded DATA
    ∧ (s ∈ packed_stoplist packed → isStoplisted DATA s = true)
    ∧ (s ∈ packed_tlds packed → isUnderTLD DATA s = true).
Proof.
  intros Hread Hkey. exists (unpacked packed).
  split; [by apply load_of_to_json|].
  unfold isStoplisted, isUnderTLD. rewrite <- (domainParts_lower s).
  split; intros Hs; apply checkSet_canonical; auto;
    cbn [unpacked stoplist tlds];
    apply elem_of_list_to_set, list_elem_of_fmap; by exists s.
Qed.

Lemma loaded_entry_matches_witness :
  let packed := {| packed_institutions := ∅;
                   packed_stoplist := ["America.EDU"];
                   packed_tlds := [] |} in
  ∃ DATA : SwotData,
    loadData (λ _, Some "json") (λ _, Some (to_json packed)) (Some "bytes")
    = Loaded DATA
    ∧ isStoplisted DATA "America.EDU" = true.
Proof.
  intros packed.
  destruct (loaded_entry_matches (λ _, Some "json") (λ _, Some (to_json packed))
              (Some "bytes") packed "America.EDU") as (DATA & Hload & Hstop & _);
    [reflexivity| |].
  - exists ["america"; "edu"]. split; [done|]. split; [|done].
    repeat constructor; by vm_compute.
  - exists DATA. split; [done|]. apply Hstop. left.
Defined.

(** ** Institution keys with capitals *)

Lemma all_chars_extend (p : ascii → bool) subj part :
  p "."%char = true → all_chars p subj = true → all_chars p part = true →
  all_chars p (extend subj part) = true.
Proof.
  intros Hdot Hsubj Hpart. unfold extend. destruct (truthy subj); [|done].
  rewrite all_chars_app, Hpart. cbn [String.append all_chars]. by rewrite Hdot.
Qed.

Lemma all_chars_tested (p : ascii → bool) subj (parts : list string) s :
  p "."%char = true → all_chars p subj = true →
  (∀ part, part ∈ parts → all_chars p part = true) →
  s ∈ tested subj parts → all_chars p s = true.
Proof.
  intros Hdot. revert subj. induction parts as [|part rest IH];
    intros subj Hsubj Hparts; cbn [tested].
  - by intros ?%elem_of_nil.
  - assert (Hext : all_chars p (extend subj part) = true).
    { apply all_chars_extend; [done..|]. apply Hparts. left. }
    intros [->|Hs]%elem_of_cons; [done|].
    apply (IH (extend subj part)); [done| |done].
    intros q Hq. apply Hparts. by right.
Qed.

Lemma findSchoolNames_from_delete m key subj (parts : list string) :
  key ∉ tested subj parts →
  findSchoolNames_from (delete key m) subj parts = findSchoolNames_from m subj parts.
Proof.
  revert subj. induction parts as [|part rest IH]; intros subj; cbn [tested];
    [done|].
  intros [Hne Hrest]%not_elem_of_cons. cbn [findSchoolNames_from].
  rewrite lookup_delete_ne by done. by rewrite IH.
Qed.

Lemma domainParts_lowered e part :
  part ∈ domainParts e →
  all_chars (λ c, Ascii.eqb (Char.toLowerCase c) c) part = true.
Proof.
  rewrite domainParts_by_steps. unfold domainParts_steps, labels_of.
  destruct (String.eqb _ ""); [by intros ?%elem_of_nil|].
  intros Hl. apply list_elem_of_In in Hl. apply (proj2 (in_rev _ _)) in Hl.
  apply list_elem_of_In in Hl.
  eapply all_chars_split; [|exact Hl].
  apply all_chars_before_first, all_chars_after_last, all_chars_before_first,
    all_chars_strip_scheme, all_chars_after_first, all_chars_lowered.
Qed.

(** X10.  An institution key that is not in lower case is never matched: the
    loader keeps the keys of the map as they are written, and every suffix
    the walk tests is in lower case.  Removing such an entry changes no
    answer. *)
Theorem capital_key_never_matched (DATA : SwotData) (key e : string) :
  toLowerCase key ≠ key →
  findSchoolNames (without_institution key DATA) e = findSchoolNames DATA e.
Proof.
  intros Hkey. unfold findSchoolNames, without_institution. cbn [institutions].
  apply findSchoolNames_from_delete. intros Hin. apply Hkey.
  apply toLowerCase_id.
  apply (all_chars_tested _ "" (domainParts e)); [by vm_compute|done| |done].
  apply domainParts_lowered.
Qed.

Lemma capital_key_never_matched_witness :
  institutions demo_capital_key !! "Stanford.edu" = Some ["Stanford University"]
  ∧ findSchoolNames demo_capital_key "alice@Stanford.edu" = [].
Proof.
  split; [vm_compute; reflexivity|].
  rewrite <- (capital_key_never_matched demo_capital_key "Stanford.edu"
                "alice@Stanford.edu"); [vm_compute; reflexivity|by vm_compute].
Defined.

(** * The provenance record *)

(** X19.  The provenance record always names an origin URL, the answer of git
    or, when that is empty, the fixed URL.  Its error field is absent
    exactly when the three git queries succeeded, and commit and date are
    then the answers of git, trimmed.  When a query failed, commit and date
    are the environment's values, or ["unknown"] where the variable is not
    set or is empty, so never empty, and the URL is the fixed one. *)
Theorem getSwotInfo_total (git_commit git_date git_url : option string)
    (env_commit env_date : option string) (now : string) :
  let info := getSwotInfo git_commit git_date git_url env_commit env_date now in
  info_url info ≠ ""
  ∧ info_updatedAt info = now
  ∧ (info_error info = None
     ↔ is_Some git_commit ∧ is_Some git_date ∧ is_Some git_url)
  ∧ (∀ commit date url,
       git_commit = Some commit → git_date = Some date → git_url = Some url →
       info_commit info = trim commit
       ∧ info_date info = trim date
       ∧ (trim url ≠ "" → info_url info = trim url)
       ∧ (trim url = "" → info_url info = swot_url))
  ∧ (info_error info ≠ None →
       info_error info = Some "Failed to get git info"
       ∧ info_commit info = or_unknown env_commit
       ∧ info_date info = or_unknown env_date
       ∧ info_commit info ≠ "" ∧ info_date info ≠ ""
       ∧ info_url info = swot_url).
Proof.
  assert (Hor : ∀ v, (if truthy (default "" v) then default "" v else "unknown")
                     = or_unknown v)
    by (by intros [[|? ?]|]).
  assert (Hne : ∀ v, or_unknown v ≠ "") by (by intros [[|? ?]|]).
  destruct git_commit as [c|], git_date as [d|], git_url as [u|];
    cbn [getSwotInfo info_url info_error info_commit info_date info_updatedAt];
    rewrite ?Hor.
  1: { split; [by destruct (trim u)|]. split; [done|].
       split; [split; [by eauto|done]|].
       split; [|done]. intros ? ? ? [= <-] [= <-] [= <-].
       split; [done|]. split; [done|].
       split; [by destruct (trim u)|]. by intros ->. }
  all: split; [done|]; split; [done|]; split;
    [split; [done|]; intros (Hc & Hd & Hu);
       by first [destruct Hc|destruct Hd|destruct Hu]
    |split; [done|]; intros _; by repeat split].
Qed.

(** * Further properties of the queries *)

(** ** A host with a trailing dot *)

Lemma labels_of_trailing_dot d :
  d ≠ "" → labels_of (d +:+ ".") = "" :: labels_of d.
Proof.
  intros Hd. unfold labels_of. apply String.eqb_neq in Hd as ->.
  assert (Hne : String.eqb (d +:+ ".") "" = false) by (by destruct d).
  rewrite Hne. change (d +:+ ".") with (d +:+ String "." "").
  by rewrite split_app, rev_app_distr.
Qed.

(** X8.  A host written with a trailing dot is answered like the host without
    it, as long as the empty string is no entry of the dataset: the empty
    top label leaves the accumulator empty and the walk starts again. *)
Theorem trailing_dot_ignored (DATA : SwotData) (d : string) :
  all_chars host_char d = true → d ≠ "" →
  "" ∉ stoplist DATA → "" ∉ tlds DATA → hit (institutions DATA) "" = false →
  isStoplisted DATA (d +:+ ".") = isStoplisted DATA d
  ∧ isUnderTLD DATA (d +:+ ".") = isUnderTLD DATA d
  ∧ findSchoolNames DATA (d +:+ ".") = findSchoolNames DATA d.
Proof.
  intros Hd Hne Hstop Htlds Hinst.
  assert (Hdot : all_chars host_char (d +:+ ".") = true).
  { rewrite all_chars_app, Hd. by vm_compute. }
  unfold isStoplisted, isUnderTLD, findSchoolNames, checkSet.
  rewrite (domainParts_host (d +:+ ".")), labels_of_trailing_dot,
    <- (domainParts_host d) by done.
  cbn [checkSet_from findSchoolNames_from]. change (extend "" "") with "".
  rewrite !decide_False by done. unfold hit in Hinst.
  by destruct (institutions DATA !! "") as [[|? ?]|].
Qed.

Lemma trailing_dot_ignored_witness :
  findSchoolNames demo "cs.stanford.edu." = findSchoolNames demo "cs.stanford.edu"
  ∧ findSchoolNames demo "cs.stanford.edu" = ["Stanford University"].
Proof.
  split; [|vm_compute; reflexivity].
  apply (trailing_dot_ignored demo "cs.stanford.edu");
    [reflexivity|discriminate|..|reflexivity].
  - unfold demo. cbn [stoplist]. by intros ?%elem_of_singleton.
  - unfold demo. cbn [tlds].
    by intros [?%elem_of_singleton|?%elem_of_singleton]%elem_of_union.
Defined.

(** ** Growing the dataset *)

Lemma checkSet_mono (set set' : gset string) (parts : list string) :
  set ⊆ set' → checkSet set parts = true → checkSet set' parts = true.
Proof.
  intros Hsub (k & Hk & Hin)%checkSet_suffix.
  apply checkSet_suffix. exists k. split; [done|]. by apply Hsub.
Qed.

Lemma hit_mono (m m' : gmap string (list string)) key :
  m ⊆ m' → hit m key = true → hit m' key = true.
Proof.
  intros Hsub. unfold hit.
  destruct (m !! key) as [[|n names]|] eqn:E; try done.
  by rewrite (lookup_weaken _ _ _ _ E Hsub).
Qed.

Lemma findSchoolNames_from_mono (m m' : gmap string (list string))
    (parts : list string) :
  m ⊆ m' → findSchoolNames_from m "" parts ≠ [] →
  findSchoolNames_from m' "" parts ≠ [].
Proof.
  intros Hsub Hne Hnil.
  destruct (findSchoolNames_from_found m [] parts Hne) as (k & Hk & Hm & _).
  pose proof (proj1 (findSchoolNames_from_no_hit m' parts) Hnil k Hk) as Hno.
  assert (Hhit : hit m (suffix k parts) = true).
  { change ([] ++ take k parts) with (take k parts) in Hm.
    change (name_of []) with "" in Hm.
    unfold hit, suffix. rewrite Hm.
    by destruct (findSchoolNames_from m "" parts). }
  apply (hit_mono m m') in Hhit; [|done]. congruence.
Qed.

(** X9.  A dataset with more TLD and institution entries and no more stoplist
    entries keeps every address academic that was academic; more stoplist
    entries keep every stoplisted input stoplisted. *)
Theorem dataset_growth (DATA DATA' : SwotData) (e : string) :
  (stoplist DATA ⊆ stoplist DATA' →
     isStoplisted DATA e = true → isStoplisted DATA' e = true)
  ∧ (tlds DATA ⊆ tlds DATA' →
     isUnderTLD DATA e = true → isUnderTLD DATA' e = true)
  ∧ (institutions DATA ⊆ institutions DATA' →
     findSchoolNames DATA e ≠ [] → findSchoolNames DATA' e ≠ [])
  ∧ (stoplist DATA' ⊆ stoplist DATA → tlds DATA ⊆ tlds DATA' →
     institutions DATA ⊆ institutions DATA' →
     isAcademic DATA e = true → isAcademic DATA' e = true).
Proof.
  split; [apply checkSet_mono|]. split; [apply checkSet_mono|].
  split; [apply findSchoolNames_from_mono|].
  intros Hstop Htlds Hinst. unfold isAcademic.
  destruct (RegExp.test re_email e); [|done]. cbn [negb].
  rewrite !length_pos_nonempty.
  intros [Hnot Hpos]%andb_prop. apply negb_true_iff in Hnot.
  apply andb_true_intro. split.
  - apply negb_true_iff, not_true_is_false. intros H.
    apply (checkSet_mono _ _ _ Hstop) in H. unfold isStoplisted in Hnot.
    congruence.
  - apply orb_true_iff. apply orb_prop in Hpos as [Ht|Hn].
    + left. by apply (checkSet_mono _ _ _ Htlds).
    + right. apply bool_decide_eq_true. apply bool_decide_eq_true in Hn.
      by apply (findSchoolNames_from_mono _ _ _ Hinst).
Qed.

(** * The load when the artifact cannot be read *)

(** X20.  When reading, decompressing or parsing the artifact throws, the loader
    returns the empty dataset, and over it every query answers [false] or
    [[]] on every input. *)
Theorem degraded_load
    (brotliDecompressSync : string → option string)
    (JSON_parse : string → option json)
    (file : option string) :
  read_packed brotliDecompressSync JSON_parse file = None →
  loadData brotliDecompressSync JSON_parse file = Loaded empty_data
  ∧ ∀ e : string,
      isAcademic empty_data e = false
      ∧ isUnderTLD empty_data e = false
      ∧ isStoplisted empty_data e = false
      ∧ findSchoolNames empty_data e = [].
Proof.
  intros Hfail. split.
  - unfold loadData. rewrite Hfail. vm_compute. reflexivity.
  - intros e.
    unfold isAcademic, isUnderTLD, isStoplisted, findSchoolNames, checkSet; simpl.
    rewrite !checkSet_from_empty, findSchoolNames_from_empty.
    by destruct (RegExp.test re_email e).
Qed.

Lemma degraded_load_witness :
  loadData (λ _, None) parse_samples (Some "not brotli") = Loaded empty_data
  ∧ loadData identity_decompress parse_samples (Some "{") = Loaded empty_data
  ∧ loadData identity_decompress parse_samples None = Loaded empty_data
  ∧ isAcademic empty_data "jane.doe@ox.ac.uk" = false.
Proof.
  split; [|split; [|split]].
  - apply (degraded_load (λ _, None) parse_samples (Some "not brotli")).
    reflexivity.
  - apply (degraded_load identity_decompress parse_samples (Some "{")).
    reflexivity.
  - apply (degraded_load identity_decompress parse_samples None). reflexivity.
  - apply (degraded_load (λ _, None) parse_samples (Some "not brotli")).
    reflexivity.
Defined.
